(** * SORT: a simple online and realtime tracker

    A shallow embedding of [sort_with_detailed_explanation.py] and the
    properties of its association step, its track bookkeeping and its
    per-frame pipeline.

    Numbers are kept behind the interface [Num]: the program runs on
    IEEE binary64 ([Float64], Rocq's primitive floats, on which every
    concrete run below is evaluated), and the statements that speak of
    exact arithmetic are read on the reals ([RealNum]).  The Kalman
    filter of [filterpy] and the assignment back ends ([lap],
    [scipy.optimize]) are libraries the program calls: the pipeline takes
    them as parameters, and a reference model of each is given to run it. *)

From Stdlib Require Import ZArith List Finite Bool Lia Permutation.
From Stdlib Require Import Floats Reals Lra.
Import ListNotations.

Set Implicit Arguments.
Local Open Scope Z_scope.

(** ** Exceptions and results *)

Inductive exn : Type :=
| IndexError
| ValueError
| LinAlgError.

Inductive result (A : Type) : Type :=
| Ok (a : A)
| Raise (e : exn).

Arguments Ok {A} a.
Arguments Raise {A} e.

Definition bind {A B : Type} (m : result A) (k : A -> result B) : result B :=
  match m with
  | Ok a => k a
  | Raise e => Raise e
  end.

Notation "x <- m ;; k" := (bind m (fun x => k))
  (at level 61, m at next level, right associativity).
Notation "' p <- m ;; k" := (bind m (fun p => k))
  (at level 61, p pattern, m at next level, right associativity).

(** ** The numbers of the program *)

Class Num (A : Type) : Type := {
  ofZ : Z -> A;
  fadd : A -> A -> A;
  fsub : A -> A -> A;
  fmul : A -> A -> A;
  fdiv : A -> A -> A;
  fneg : A -> A;
  fsqrt : A -> A;
  feqb : A -> A -> bool;
  fltb : A -> A -> bool;
  fleb : A -> A -> bool;
  fisinf : A -> bool
}.

(** What the comparisons of a number system owe each other: numbers that
    compare equal do not compare less either way. *)
Class NumLaws (A : Type) {NA : Num A} : Prop := {
  feqb_not_lt : forall x y : A, feqb x y = true -> fltb x y = false;
  feqb_not_gt : forall x y : A, feqb x y = true -> fltb y x = false
}.

Arguments NumLaws A {NA}.

Declare Scope num_scope.
Delimit Scope num_scope with num.
Infix "+" := fadd : num_scope.
Infix "-" := fsub : num_scope.
Infix "*" := fmul : num_scope.
Infix "/" := fdiv : num_scope.
Infix "<?" := fltb : num_scope.
Infix "<=?" := fleb : num_scope.
Infix "=?" := feqb : num_scope.

(** *** IEEE binary64 *)

Definition float_ofZ (z : Z) : float :=
  match z with
  | Z0 => PrimFloat.zero
  | Zpos _ => PrimFloat.of_uint63 (Uint63.of_Z z)
  | Zneg _ => PrimFloat.opp (PrimFloat.of_uint63 (Uint63.of_Z (- z)))
  end.

#[export] Instance Float64 : Num float := {
  ofZ := float_ofZ;
  fadd := PrimFloat.add;
  fsub := PrimFloat.sub;
  fmul := PrimFloat.mul;
  fdiv := PrimFloat.div;
  fneg := PrimFloat.opp;
  fsqrt := PrimFloat.sqrt;
  feqb := PrimFloat.eqb;
  fltb := PrimFloat.ltb;
  fleb := PrimFloat.leb;
  fisinf := PrimFloat.is_infinity
}.

(** *** Exact real arithmetic *)

Definition Reqb (x y : R) : bool := if Req_dec_T x y then true else false.
Definition Rltb (x y : R) : bool := if Rlt_dec x y then true else false.
Definition Rleb (x y : R) : bool := if Rle_dec x y then true else false.

#[export] Instance RealNum : Num R := {
  ofZ := IZR;
  fadd := Rplus;
  fsub := Rminus;
  fmul := Rmult;
  fdiv := Rdiv;
  fneg := Ropp;
  fsqrt := R_sqrt.sqrt;
  feqb := Reqb;
  fltb := Rltb;
  fleb := Rleb;
  fisinf := fun _ => false
}.

(** ** Arrays

    A row of an [N x 5] array ([x1, y1, x2, y2, score]) and the
    [x1, y1, x2, y2] array returned by [convert_x_to_bbox]: their shapes
    are fixed by the program, so they are records.  Column vectors and
    matrices of the filter are lists. *)

Record row (A : Type) : Type := Row {
  r0 : A; r1 : A; r2 : A; r3 : A; r4 : A
}.

Record bbox (A : Type) : Type := Bbox {
  b0 : A; b1 : A; b2 : A; b3 : A
}.

Arguments Row {A}.
Arguments Bbox {A}.

(** Python's [seq[i]] on a sequence of length [n]: a negative index counts
    from the end, an index out of [-n, n) raises [IndexError]. *)
Definition py_norm (n : nat) (i : Z) : result nat :=
  if (0 <=? i) && (i <? Z.of_nat n) then Ok (Z.to_nat i)
  else if (- Z.of_nat n <=? i) && (i <? 0) then Ok (Z.to_nat (Z.of_nat n + i))
  else Raise IndexError.

Definition py_index {A : Type} (l : list A) (i : Z) : result A :=
  k <- py_norm (length l) i ;;
  match nth_error l k with
  | Some a => Ok a
  | None => Raise IndexError
  end.

Fixpoint set_nth {A : Type} (k : nat) (a : A) (l : list A) : list A :=
  match l, k with
  | [], _ => []
  | _ :: l', O => a :: l'
  | b :: l', S k' => b :: set_nth k' a l'
  end.

(** [seq[i] = a] *)
Definition py_setitem {A : Type} (l : list A) (i : Z) (a : A) : result (list A) :=
  k <- py_norm (length l) i ;;
  Ok (set_nth k a l).

Fixpoint remove_nth {A : Type} (k : nat) (l : list A) : list A :=
  match l, k with
  | [], _ => []
  | _ :: l', O => l'
  | b :: l', S k' => b :: remove_nth k' l'
  end.

(** [list.pop(i)], keeping the list only. *)
Definition py_pop {A : Type} (l : list A) (i : Z) : result (list A) :=
  k <- py_norm (length l) i ;;
  Ok (remove_nth k l).

(** [np.arange(n)] *)
Definition arange (n : nat) : list Z := map Z.of_nat (seq 0 n).

(** [enumerate(l)] *)
Definition enumerate {A : Type} (l : list A) : list (Z * A) :=
  combine (arange (length l)) l.

Section Geometry.

Context {A : Type} {NA : Num A}.
Local Open Scope num_scope.

Definition zero : A := ofZ 0.
Definition two : A := ofZ 2.

(** [np.isnan] and the elements [np.ma.masked_invalid] masks. *)
Definition isnan (x : A) : bool := negb (x =? x).
Definition isinvalid (x : A) : bool := isnan x || fisinf x.

(** [np.maximum] and [np.minimum]: a NaN operand is returned. *)
Definition maximum (a b : A) : A := if (b <=? a) || isnan a then a else b.
Definition minimum (a b : A) : A := if (a <=? b) || isnan a then a else b.

(** One entry of [iou_batch]: the box [bb_test] against the box [bb_gt]. *)
Definition iou (bb_test bb_gt : row A) : A :=
  let xx1 := maximum (r0 bb_test) (r0 bb_gt) in
  let yy1 := maximum (r1 bb_test) (r1 bb_gt) in
  let xx2 := minimum (r2 bb_test) (r2 bb_gt) in
  let yy2 := minimum (r3 bb_test) (r3 bb_gt) in
  let w := maximum zero (xx2 - xx1) in
  let h := maximum zero (yy2 - yy1) in
  let wh := w * h in
  wh / ((r2 bb_test - r0 bb_test) * (r3 bb_test - r1 bb_test)
        + (r2 bb_gt - r0 bb_gt) * (r3 bb_gt - r1 bb_gt) - wh).

(** [iou_batch(bb_test, bb_gt)]: the [len(bb_test) x len(bb_gt)] matrix. *)
Definition iou_batch (bb_test bb_gt : list (row A)) : list (list A) :=
  map (fun d => map (fun t => iou d t) bb_gt) bb_test.

(** [convert_bbox_to_z]: [x1,y1,x2,y2] to the column [x,y,s,r]. *)
Definition convert_bbox_to_z (bbox : row A) : list A :=
  let w := r2 bbox - r0 bbox in
  let h := r3 bbox - r1 bbox in
  let x := r0 bbox + w / two in
  let y := r1 bbox + h / two in
  let s := w * h in
  let r := w / h in
  [x; y; s; r].

(** [x[k]] on a column whose height the filter fixes. *)
Definition at_ (x : list A) (k : nat) : A := nth k x zero.

(** [convert_x_to_bbox(x)] with [score=None]. *)
Definition convert_x_to_bbox (x : list A) : bbox A :=
  let w := fsqrt (at_ x 2 * at_ x 3) in
  let h := at_ x 2 / w in
  Bbox (at_ x 0 - w / two) (at_ x 1 - h / two)
       (at_ x 0 + w / two) (at_ x 1 + h / two).

End Geometry.

(** ** The Kalman filter object

    The fields of [filterpy.kalman.KalmanFilter] the program reads or
    writes. *)

Record KalmanFilter (A : Type) : Type := MkKalmanFilter {
  kf_x : list A;
  kf_P : list (list A);
  kf_F : list (list A);
  kf_H : list (list A);
  kf_R : list (list A);
  kf_Q : list (list A)
}.

Section Matrices.

Context {A : Type} {NA : Num A}.
Local Open Scope num_scope.

Definition eye (n : nat) : list (list A) :=
  map (fun i => map (fun j => if Nat.eqb i j then ofZ 1 else ofZ 0) (seq 0 n))
      (seq 0 n).

Definition zeros (n m : nat) : list (list A) := repeat (repeat zero m) n.

Definition mapi {X Y : Type} (f : nat -> X -> Y) (l : list X) : list Y :=
  map (fun p => f (fst p) (snd p)) (combine (seq 0 (length l)) l).

(** [M[i0:, j0:] *= c] *)
Definition scale_block (i0 j0 : nat) (c : A) (M : list (list A)) : list (list A) :=
  mapi (fun i r =>
          mapi (fun j v => if Nat.leb i0 i && Nat.leb j0 j then v * c else v) r) M.

(** [M[i, j] *= c] *)
Definition scale_entry (i j : nat) (c : A) (M : list (list A)) : list (list A) :=
  mapi (fun i' r =>
          mapi (fun j' v => if Nat.eqb i i' && Nat.eqb j j' then v * c else v) r) M.

(** [KalmanFilter(dim_x, dim_z)] *)
Definition KalmanFilter_new (dim_x dim_z : nat) : KalmanFilter A :=
  {| kf_x := repeat zero dim_x;
     kf_P := eye dim_x;
     kf_F := eye dim_x;
     kf_H := zeros dim_z dim_x;
     kf_R := eye dim_z;
     kf_Q := eye dim_x |}.

Definition set_x (kf : KalmanFilter A) (x : list A) : KalmanFilter A :=
  {| kf_x := x; kf_P := kf_P kf; kf_F := kf_F kf; kf_H := kf_H kf;
     kf_R := kf_R kf; kf_Q := kf_Q kf |}.

Definition of_ints (M : list (list Z)) : list (list A) := map (map ofZ) M.

Definition F_const : list (list A) :=
  of_ints [[1;0;0;0;1;0;0]; [0;1;0;0;0;1;0]; [0;0;1;0;0;0;1]; [0;0;0;1;0;0;0];
           [0;0;0;0;1;0;0]; [0;0;0;0;0;1;0]; [0;0;0;0;0;0;1]]%Z.

Definition H_const : list (list A) :=
  of_ints [[1;0;0;0;0;0;0]; [0;1;0;0;0;0;0]; [0;0;1;0;0;0;0]; [0;0;0;1;0;0;0]]%Z.

End Matrices.

(** ** KalmanBoxTracker *)

Record KalmanBoxTracker (A : Type) : Type := MkTracker {
  kf : KalmanFilter A;
  time_since_update : Z;
  id : Z;
  history : list (bbox A);
  hits : Z;
  hit_streak : Z;
  age : Z
}.

(** ** Sort *)

Record Sort (A : Type) : Type := MkSort {
  max_age : Z;
  min_hits : Z;
  iou_threshold : A;
  trackers : list (KalmanBoxTracker A);
  frame_count : Z
}.

Section Tracker.

Context {A : Type} {NA : Num A}.
Local Open Scope num_scope.

(** [KalmanFilter.predict] and [KalmanFilter.update] of [filterpy];
    [update] inverts a matrix and may raise. *)
Variable kf_predict : KalmanFilter A -> KalmanFilter A.
Variable kf_update : KalmanFilter A -> list A -> result (KalmanFilter A).

(** The back ends of [linear_assignment]: [lap.lapjv] when [lap] can be
    imported ([None] is the [ImportError]), [scipy]'s
    [linear_sum_assignment] otherwise. *)
Variable lap : option (list (list A) -> result (list Z * list Z)).
Variable linear_sum_assignment : list (list A) -> result (list Z * list Z).

(** [KalmanBoxTracker(bbox)]; [count] is the class attribute
    [KalmanBoxTracker.count], returned incremented. *)
Definition KalmanBoxTracker_init (count : Z) (bbox : row A)
  : KalmanBoxTracker A * Z :=
  let k := KalmanFilter_new 7 4 in
  let k := {| kf_x := kf_x k; kf_P := kf_P k; kf_F := F_const; kf_H := H_const;
              kf_R := kf_R k; kf_Q := kf_Q k |} in
  let R := scale_block 2 2 (ofZ 10) (kf_R k) in
  let P := scale_block 4 4 (ofZ 1000) (kf_P k) in
  let P := scale_block 0 0 (ofZ 10) P in
  let Q := scale_entry 6 6 (ofZ 1 / ofZ 100) (kf_Q k) in
  let Q := scale_block 4 4 (ofZ 1 / ofZ 100) Q in
  let x := convert_bbox_to_z bbox ++ skipn 4 (kf_x k) in
  ({| kf := {| kf_x := x; kf_P := P; kf_F := kf_F k; kf_H := kf_H k;
               kf_R := R; kf_Q := Q |};
      time_since_update := 0;
      id := count;
      history := [];
      hits := 0;
      hit_streak := 0;
      age := 0 |},
   (count + 1)%Z).

(** [KalmanBoxTracker.update(bbox)] *)
Definition KalmanBoxTracker_update (self : KalmanBoxTracker A) (bbox : row A)
  : result (KalmanBoxTracker A) :=
  k <- kf_update (kf self) (convert_bbox_to_z bbox) ;;
  Ok {| kf := k;
        time_since_update := 0;
        id := id self;
        history := [];
        hits := (hits self + 1)%Z;
        hit_streak := (hit_streak self + 1)%Z;
        age := age self |}.

(** [KalmanBoxTracker.predict()]: the tracker after the call and the box
    returned. *)
Definition KalmanBoxTracker_predict (self : KalmanBoxTracker A)
  : KalmanBoxTracker A * bbox A :=
  let x := kf_x (kf self) in
  let k := if (at_ x 6 + at_ x 2) <=? zero
           then set_x (kf self) (set_nth 6 (at_ x 6 * zero) x)
           else kf self in
  let k := kf_predict k in
  let streak := if (time_since_update self >? 0)%Z then 0%Z else hit_streak self in
  let b := convert_x_to_bbox (kf_x k) in
  ({| kf := k;
      time_since_update := (time_since_update self + 1)%Z;
      id := id self;
      history := history self ++ [b];
      hits := hits self;
      hit_streak := streak;
      age := (age self + 1)%Z |},
   b).

(** [KalmanBoxTracker.get_state()] *)
Definition get_state (self : KalmanBoxTracker A) : bbox A :=
  convert_x_to_bbox (kf_x (kf self)).

(** *** linear_assignment *)

Fixpoint mapM {X Y : Type} (f : X -> result Y) (l : list X) : result (list Y) :=
  match l with
  | [] => Ok []
  | a :: l' => b <- f a ;; bs <- mapM f l' ;; Ok (b :: bs)
  end.

Definition linear_assignment (cost_matrix : list (list A))
  : result (list (Z * Z)) :=
  match lap with
  | Some lapjv =>
      '(x, y) <- lapjv cost_matrix ;;
      mapM (fun i => yi <- py_index y i ;; Ok (yi, i))
           (filter (fun i => (0 <=? i)%Z) x)
  | None =>
      '(x, y) <- linear_sum_assignment cost_matrix ;;
      Ok (combine x y)
  end.

(** *** associate_detections_to_trackers *)

Definition b2z (b : bool) : Z := if b then 1%Z else 0%Z.

Definition zsum (l : list Z) : Z := fold_right Z.add 0%Z l.

(** [.max()] of a one-dimensional array; the program calls it on
    non-empty arrays only. *)
Definition amax (l : list Z) : Z :=
  match l with
  | [] => 0%Z
  | a :: l' => fold_right Z.max a l'
  end.

(** [a.sum(1)] and [a.sum(0)] of an [n x m] array of 0/1. *)
Definition row_sums (a : list (list bool)) : list Z :=
  map (fun r => zsum (map b2z r)) a.

Definition col_sums (m : nat) (a : list (list bool)) : list Z :=
  map (fun j => zsum (map (fun r => b2z (nth j r false)) a)) (seq 0 m).

(** [np.stack(np.where(a), axis=1)]: the positions of the non-zero entries,
    row by row. *)
Definition where_ (a : list (list bool)) : list (Z * Z) :=
  flat_map (fun ir =>
              map (fun jb => (fst ir, fst jb))
                  (filter (fun jb => snd jb) (enumerate (snd ir))))
           (enumerate a).

Definition zmem (d : Z) (l : list Z) : bool := existsb (Z.eqb d) l.

(** The loop filtering out the matches of low IoU. *)
Fixpoint filter_low_iou (iou_matrix : list (list A)) (thr : A)
    (matched_indices : list (Z * Z))
    (unmatched_detections unmatched_trackers : list Z) (matches : list (Z * Z))
  : result (list (Z * Z) * list Z * list Z) :=
  match matched_indices with
  | [] => Ok (matches, unmatched_detections, unmatched_trackers)
  | m :: rest =>
      r <- py_index iou_matrix (fst m) ;;
      v <- py_index r (snd m) ;;
      if v <? thr
      then filter_low_iou iou_matrix thr rest
             (unmatched_detections ++ [fst m]) (unmatched_trackers ++ [snd m])
             matches
      else filter_low_iou iou_matrix thr rest
             unmatched_detections unmatched_trackers (matches ++ [m])
  end.

(** The matched indices proposed before filtering: read off the
    thresholded matrix when it pairs rows and columns one to one, asked of
    the solver otherwise; [np.empty(shape=(0,2))] without detections.  An
    empty answer of the solver is a one-dimensional array, and
    [matched_indices[:,0]] raises on it. *)
Definition candidate_pairs (iou_matrix : list (list A)) (n m : nat) (thr : A)
  : result (list (Z * Z)) :=
  if (0 <? Z.of_nat (Nat.min n m))%Z then
    let a := map (map (fun v => thr <? v)) iou_matrix in
    if (amax (row_sums a) =? 1)%Z && (amax (col_sums m a) =? 1)%Z
    then Ok (where_ a)
    else
      mi <- linear_assignment (map (map fneg) iou_matrix) ;;
      match mi with
      | [] => Raise IndexError
      | _ => Ok mi
      end
  else Ok [].

Definition associate_detections_to_trackers
    (detections trackers : list (row A)) (iou_threshold : A)
  : result (list (Z * Z) * list Z * list Z) :=
  if Nat.eqb (length trackers) 0 then
    Ok ([], arange (length detections), [])
  else
    let iou_matrix := iou_batch detections trackers in
    matched_indices <-
      candidate_pairs iou_matrix (length detections) (length trackers)
                      iou_threshold ;;
    let unmatched_detections :=
      filter (fun d => negb (zmem d (map fst matched_indices)))
             (arange (length detections)) in
    let unmatched_trackers :=
      filter (fun t => negb (zmem t (map snd matched_indices)))
             (arange (length trackers)) in
    filter_low_iou iou_matrix iou_threshold matched_indices
                   unmatched_detections unmatched_trackers [].

(** *** Sort.update *)

Definition any_isnan (pos : bbox A) : bool :=
  isnan (b0 pos) || isnan (b1 pos) || isnan (b2 pos) || isnan (b3 pos).

Definition row_invalid (r : row A) : bool :=
  isinvalid (r0 r) || isinvalid (r1 r) || isinvalid (r2 r) || isinvalid (r3 r)
  || isinvalid (r4 r).

(** [np.ma.compress_rows(np.ma.masked_invalid(trks))] *)
Definition compress_rows_masked_invalid (trks : list (row A)) : list (row A) :=
  filter (fun r => negb (row_invalid r)) trks.

(** [trk[:] = [pos[0], pos[1], pos[2], pos[3], 0]] *)
Definition trk_row (pos : bbox A) : row A :=
  Row (b0 pos) (b1 pos) (b2 pos) (b3 pos) zero.

(** The prediction loop, from index [t] on: the trackers after their
    [predict()], the rows written into [trks], and [to_del]. *)
Fixpoint predict_loop (t : Z) (trackers : list (KalmanBoxTracker A))
  : list (KalmanBoxTracker A) * list (row A) * list Z :=
  match trackers with
  | [] => ([], [], [])
  | trk :: rest =>
      let '(trk', pos) := KalmanBoxTracker_predict trk in
      let '(trackers', trks, to_del) := predict_loop (t + 1)%Z rest in
      (trk' :: trackers',
       trk_row pos :: trks,
       if any_isnan pos then t :: to_del else to_del)
  end.

(** [for t in reversed(to_del): self.trackers.pop(t)], given the reversed
    list. *)
Fixpoint pop_all (trackers : list (KalmanBoxTracker A)) (rev_to_del : list Z)
  : result (list (KalmanBoxTracker A)) :=
  match rev_to_del with
  | [] => Ok trackers
  | t :: rest => trackers' <- py_pop trackers t ;; pop_all trackers' rest
  end.

(** [for m in matched: self.trackers[m[1]].update(dets[m[0], :])] *)
Fixpoint update_matched (trackers : list (KalmanBoxTracker A))
    (dets : list (row A)) (matched : list (Z * Z))
  : result (list (KalmanBoxTracker A)) :=
  match matched with
  | [] => Ok trackers
  | m :: rest =>
      trk <- py_index trackers (snd m) ;;
      d <- py_index dets (fst m) ;;
      trk' <- KalmanBoxTracker_update trk d ;;
      trackers' <- py_setitem trackers (snd m) trk' ;;
      update_matched trackers' dets rest
  end.

(** [for i in unmatched_dets: self.trackers.append(KalmanBoxTracker(dets[i,:]))] *)
Fixpoint create_new (count : Z) (trackers : list (KalmanBoxTracker A))
    (dets : list (row A)) (unmatched_dets : list Z)
  : result (Z * list (KalmanBoxTracker A)) :=
  match unmatched_dets with
  | [] => Ok (count, trackers)
  | i :: rest =>
      d <- py_index dets i ;;
      let '(trk, count') := KalmanBoxTracker_init count d in
      create_new count' (trackers ++ [trk]) dets rest
  end.

(** The trackers constructed from the rows [ds], one after the other, when
    the class counter holds [count]. *)
Fixpoint births (count : Z) (ds : list (row A)) : list (KalmanBoxTracker A) :=
  match ds with
  | [] => []
  | d :: ds' => fst (KalmanBoxTracker_init count d) :: births (count + 1) ds'
  end.

(** The test under which a track is appended to [ret]. *)
Definition emits (min_hits frame_count : Z) (trk : KalmanBoxTracker A) : bool :=
  (time_since_update trk <? 1)%Z
  && ((min_hits <=? hit_streak trk)%Z || (frame_count <=? min_hits)%Z).

(** The test under which a track is popped in the last loop. *)
Definition dead (max_age : Z) (trk : KalmanBoxTracker A) : bool :=
  (max_age <? time_since_update trk)%Z.

(** A row of the returned array: the state of the track and [id + 1]. *)
Definition ret_row (trk : KalmanBoxTracker A) : bbox A * Z :=
  (get_state trk, (id trk + 1)%Z).

(** [for trk in reversed(self.trackers): ...]: [k] is the number of items
    the reversed iterator still has to visit (it reads [self.trackers[k-1]]
    from the list as it is then, and stops when that index is past the
    end), [i] the program's own index variable. *)
Fixpoint final_walk (max_age min_hits frame_count : Z) (k : nat) (i : Z)
    (trackers : list (KalmanBoxTracker A)) (ret : list (bbox A * Z))
  : result (list (KalmanBoxTracker A) * list (bbox A * Z)) :=
  match k with
  | O => Ok (trackers, ret)
  | S k' =>
      match nth_error trackers k' with
      | None => Ok (trackers, ret)
      | Some trk =>
          let ret' := if emits min_hits frame_count trk
                      then ret ++ [ret_row trk] else ret in
          let i' := (i - 1)%Z in
          trackers' <- (if dead max_age trk then py_pop trackers i'
                        else Ok trackers) ;;
          final_walk max_age min_hits frame_count k' i' trackers' ret'
      end
  end.

(** [Sort(max_age, min_hits, iou_threshold)] *)
Definition Sort_init (max_age min_hits : Z) (iou_threshold : A) : Sort A :=
  {| max_age := max_age; min_hits := min_hits; iou_threshold := iou_threshold;
     trackers := []; frame_count := 0 |}.

(** The first part of [update]: every tracker predicts, the rows with an
    invalid entry leave [trks], the trackers listed in [to_del] leave
    [self.trackers].  Returns the trackers and [trks]. *)
Definition predict_and_prune (trackers : list (KalmanBoxTracker A))
  : result (list (KalmanBoxTracker A) * list (row A)) :=
  let '(trackers, trks, to_del) := predict_loop 0 trackers in
  let trks := compress_rows_masked_invalid trks in
  trackers <- pop_all trackers (rev to_del) ;;
  Ok (trackers, trks).

(** The state of [update] before its last loop: the counter, the frame
    count, the live tracks after prediction, removal of the NaN tracks,
    update of the matched tracks and creation of the new ones. *)
Definition update_tracks (count : Z) (self : Sort A) (dets : list (row A))
  : result (Z * Z * list (KalmanBoxTracker A)) :=
  let frame_count := (frame_count self + 1)%Z in
  '(trackers, trks) <- predict_and_prune (trackers self) ;;
  '(matched, unmatched_dets, unmatched_trks) <-
    associate_detections_to_trackers dets trks (iou_threshold self) ;;
  trackers <- update_matched trackers dets matched ;;
  '(count, trackers) <- create_new count trackers dets unmatched_dets ;;
  Ok (count, frame_count, trackers).

(** [Sort.update(dets)]: the class counter and the tracker object after the
    call, and the rows returned. *)
Definition update (count : Z) (self : Sort A) (dets : list (row A))
  : result (Z * Sort A * list (bbox A * Z)) :=
  '(count, frame_count, trackers) <- update_tracks count self dets ;;
  '(trackers, ret) <-
    final_walk (max_age self) (min_hits self) frame_count
               (length trackers) (Z.of_nat (length trackers)) trackers [] ;;
  Ok (count,
      {| max_age := max_age self; min_hits := min_hits self;
         iou_threshold := iou_threshold self;
         trackers := trackers; frame_count := frame_count |},
      ret).

(** A run of frames on one tracker object. *)
Fixpoint run (count : Z) (self : Sort A) (frames : list (list (row A)))
  : result (Z * Sort A * list (list (bbox A * Z))) :=
  match frames with
  | [] => Ok (count, self, [])
  | dets :: rest =>
      '(count', self', ret) <- update count self dets ;;
      '(count'', self'', rets) <- run count' self' rest ;;
      Ok (count'', self'', ret :: rets)
  end.

End Tracker.

(** ** Reference models of the libraries

    [filterpy]'s filter after its documented equations, and an assignment
    solver by exhaustive search, presented through the interfaces of
    [lap.lapjv] and of [scipy.optimize.linear_sum_assignment].  The
    concrete runs below are evaluated on them. *)

Section Reference.

Context {A : Type} {NA : Num A}.
Local Open Scope num_scope.

Definition dotp (u v : list A) : A :=
  fold_left (fun acc p => acc + fst p * snd p) (combine u v) zero.

Definition mat_vec (M : list (list A)) (v : list A) : list A :=
  map (fun r => dotp r v) M.

Definition ncols (M : list (list A)) : nat := length (hd [] M).

Definition transpose (M : list (list A)) : list (list A) :=
  map (fun j => map (fun r => nth j r zero) M) (seq 0 (ncols M)).

Definition mat_mul (M N : list (list A)) : list (list A) :=
  let Nt := transpose N in
  map (fun r => map (fun c => dotp r c) Nt) M.

Definition vec_zip (f : A -> A -> A) (u v : list A) : list A :=
  map (fun p => f (fst p) (snd p)) (combine u v).

Definition mat_zip (f : A -> A -> A) (M N : list (list A)) : list (list A) :=
  map (fun p => vec_zip f (fst p) (snd p)) (combine M N).

Definition fabs (x : A) : A := if x <? zero then fneg x else x.

(** Row of the largest pivot in column [k], among rows [k..]. *)
Definition pivot_row (k : nat) (rows : list (list A)) : nat :=
  fold_left
    (fun best i =>
       if fabs (nth k (nth best rows []) zero) <? fabs (nth k (nth i rows []) zero)
       then i else best)
    (seq (S k) (length rows - S k)) k.

Definition eliminate (k : nat) (rows : list (list A)) : result (list (list A)) :=
  let p := pivot_row k rows in
  let rp := nth p rows [] in
  let rk := nth k rows [] in
  let piv := nth k rp zero in
  if piv =? zero then Raise LinAlgError
  else
    let rows := set_nth k rp (set_nth p rk rows) in
    let nk := map (fun v => v / piv) rp in
    Ok (mapi (fun i r =>
                if Nat.eqb i k then nk
                else let c := nth k r zero in vec_zip (fun v pv => v - c * pv) r nk)
             rows).

Fixpoint eliminate_all (ks : list nat) (rows : list (list A))
  : result (list (list A)) :=
  match ks with
  | [] => Ok rows
  | k :: ks' => rows' <- eliminate k rows ;; eliminate_all ks' rows'
  end.

(** Inverse by Gauss-Jordan elimination with partial pivoting;
    [LinAlgError] on a singular matrix. *)
Definition inv (M : list (list A)) : result (list (list A)) :=
  let n := length M in
  let aug := map (fun p => fst p ++ snd p) (combine M (eye n)) in
  rows <- eliminate_all (seq 0 n) aug ;;
  Ok (map (skipn n) rows).

(** [x = Fx], [P = FPF' + Q] *)
Definition ref_predict (k : KalmanFilter A) : KalmanFilter A :=
  let Fm := kf_F k in
  {| kf_x := mat_vec Fm (kf_x k);
     kf_P := mat_zip fadd (mat_mul (mat_mul Fm (kf_P k)) (transpose Fm)) (kf_Q k);
     kf_F := Fm; kf_H := kf_H k; kf_R := kf_R k; kf_Q := kf_Q k |}.

(** [y = z - Hx], [S = HPH' + R], [K = PH'S^-1], [x = x + Ky],
    [P = (I-KH)P(I-KH)' + KRK'] *)
Definition ref_update (k : KalmanFilter A) (z : list A)
  : result (KalmanFilter A) :=
  let Hm := kf_H k in
  let y := vec_zip fsub z (mat_vec Hm (kf_x k)) in
  let PHT := mat_mul (kf_P k) (transpose Hm) in
  let S := mat_zip fadd (mat_mul Hm PHT) (kf_R k) in
  SI <- inv S ;;
  let K := mat_mul PHT SI in
  let x := vec_zip fadd (kf_x k) (mat_vec K y) in
  let I_KH := mat_zip fsub (eye (length (kf_x k))) (mat_mul K Hm) in
  let P := mat_zip fadd (mat_mul (mat_mul I_KH (kf_P k)) (transpose I_KH))
                        (mat_mul (mat_mul K (kf_R k)) (transpose K)) in
  Ok {| kf_x := x; kf_P := P; kf_F := kf_F k; kf_H := Hm;
        kf_R := kf_R k; kf_Q := kf_Q k |}.

(** All the assignments of the rows to distinct columns in which [skip]
    rows stay unassigned at most. *)
Fixpoint assignments (rows cols : list nat) (skip : nat)
  : list (list (nat * nat)) :=
  match rows with
  | [] => [[]]
  | i :: rows' =>
      flat_map (fun j =>
                  map (cons (i, j))
                      (assignments rows' (List.remove Nat.eq_dec j cols) skip))
               cols
      ++ match skip with
         | O => []
         | S s => assignments rows' cols s
         end
  end.

Definition total_cost (cost : list (list A)) (asg : list (nat * nat)) : A :=
  fold_left (fun acc p => acc + nth (snd p) (nth (fst p) cost []) zero) asg zero.

Definition best_assignment (cost : list (list A)) : list (nat * nat) :=
  let n := length cost in
  let m := ncols cost in
  let all := filter (fun asg => Nat.eqb (length asg) (Nat.min n m))
                    (assignments (seq 0 n) (seq 0 m) (n - m)) in
  match all with
  | [] => []
  | a :: rest =>
      fold_left (fun best c =>
                   if total_cost cost c <? total_cost cost best then c else best)
                rest a
  end.

(** [scipy.optimize.linear_sum_assignment]: [ValueError] on a matrix with
    NaN or infinite entries, else the rows and the columns of an optimal
    assignment. *)
Definition ref_linear_sum_assignment (cost : list (list A))
  : result (list Z * list Z) :=
  if existsb (existsb isinvalid) cost then Raise ValueError
  else
    let asg := best_assignment cost in
    Ok (map (fun p => Z.of_nat (fst p)) asg, map (fun p => Z.of_nat (snd p)) asg).

Definition find_snd (i : nat) (asg : list (nat * nat)) : Z :=
  match find (fun p => Nat.eqb (fst p) i) asg with
  | Some p => Z.of_nat (snd p)
  | None => (-1)%Z
  end.

Definition find_fst (j : nat) (asg : list (nat * nat)) : Z :=
  match find (fun p => Nat.eqb (snd p) j) asg with
  | Some p => Z.of_nat (fst p)
  | None => (-1)%Z
  end.

(** [lap.lapjv(cost, extend_cost=True)]: [x[i]] is the column of row [i],
    [y[j]] the row of column [j], [-1] when there is none; the entries are
    not checked. *)
Definition ref_lapjv (cost : list (list A)) : result (list Z * list Z) :=
  let asg := best_assignment cost in
  Ok (map (fun i => find_snd i asg) (seq 0 (length cost)),
      map (fun j => find_fst j asg) (seq 0 (ncols cost))).

End Reference.

(** The program on binary64, with [lap] installed and without. *)
Definition update_lap :=
  update (A := float) ref_predict ref_update (Some ref_lapjv)
         ref_linear_sum_assignment.

Definition update_scipy :=
  update (A := float) ref_predict ref_update None ref_linear_sum_assignment.


Definition run_scipy :=
  run (A := float) ref_predict ref_update None ref_linear_sum_assignment.

Definition box (x1 y1 x2 y2 : float) : row float := Row x1 y1 x2 y2 1%float.

Definition ids {A} (rets : list (list (bbox A * Z))) : list (list Z) :=
  map (map snd) rets.

Definition counters {A} (t : KalmanBoxTracker A) : Z * Z * Z * Z * Z :=
  (id t, time_since_update t, hits t, hit_streak t, age t).

Definition thr03 : float := (3 / 10)%float.
Definition s0 : Sort float := Sort_init 1 3 thr03.
Definition d100 : row float := box 100 100 200 200.

(** ** Concrete inputs on binary64 *)


Definition associate_scipy :=
  associate_detections_to_trackers (A := float) None ref_linear_sum_assignment.

Definition state_of (r : result (Z * Sort float * list (bbox float * Z)))
  : Sort float :=
  match r with
  | Ok (_, s, _) => s
  | Raise _ => s0
  end.

(** Two detections against three tracker boxes: the first detection
    overlaps two of them, the second one overlaps the third a little. *)
Definition two_dets : list (row float) :=
  [box 0 0 10 10; box 100 100 110 110].

Definition three_trks : list (row float) :=
  [Row 1 0 11 10 0; Row 0 1 10 11 0; Row 105 105 115 115 0]%float.

(** Two tracks, born in a first frame. *)
Definition two_tracks : Sort float :=
  Eval vm_compute in
    state_of (update_scipy 0 s0 [d100; box 300 300 400 400]).




(** One track that has missed one frame. *)
Definition coasting : Sort float :=
  Eval vm_compute in
    match run_scipy 0 s0 [[d100]; []] with
    | Ok (_, s, _) => s
    | Raise _ => s0
    end.

Definition coasting_predicted : list (KalmanBoxTracker float) :=
  Eval vm_compute in
    match update_tracks ref_predict ref_update None ref_linear_sum_assignment
                        1 coasting [] with
    | Ok (_, _, t) => t
    | Raise _ => []
    end.

(** Five frames: two objects, one of them lost and found again. *)
Definition five_frames : list (list (row float)) :=
  [[d100; box 300 300 400 400]; [d100]; []; []; [d100]].

Definition after_five_frames : Sort float :=
  Eval vm_compute in
    match run_scipy 0 s0 five_frames with
    | Ok (_, s, _) => s
    | Raise _ => s0
    end.

Definition rets_five_frames : list (list (bbox float * Z)) :=
  Eval vm_compute in
    match run_scipy 0 s0 five_frames with
    | Ok (_, _, r) => r
    | Raise _ => []
    end.

(** A wide flat box: its area times its aspect ratio overflows. *)
Definition wide_box : row float := box 0 0 0x1p700 1.

Definition wide_and_small : Sort float :=
  Eval vm_compute in state_of (update_scipy 0 s0 [wide_box; box 0 0 10 10]).




(** ** The vocabulary of the properties *)

(** [iou_matrix[m[0], m[1]]] *)
Definition entry {A : Type} (iou_matrix : list (list A)) (m : Z * Z) : result A :=
  r <- py_index iou_matrix (fst m) ;;
  py_index r (snd m).

(** A candidate pair is demoted when its entry is below the threshold. *)
Definition low {A : Type} {NA : Num A} (iou_matrix : list (list A)) (thr : A)
    (m : Z * Z) : bool :=
  match entry iou_matrix m with
  | Ok v => fltb v thr
  | Raise _ => false
  end.

(** One-to-one pairs of a detection index below [n] and a tracker index
    below [m]: what an assignment solver answers. *)
Definition is_assignment (n m : nat) (mi : list (Z * Z)) : Prop :=
  NoDup (map fst mi) /\ NoDup (map snd mi)
  /\ Forall (fun p => 0 <= fst p < Z.of_nat n /\ 0 <= snd p < Z.of_nat m) mi.

(** The bookkeeping counters of a track are consistent. *)
Definition counters_ok {A : Type} (t : KalmanBoxTracker A) : Prop :=
  0 <= hit_streak t /\ hit_streak t <= hits t /\ hits t <= age t
  /\ 0 <= time_since_update t.

(** After [predict()] and before [update()]: one more frame than hits. *)
Definition predicted_ok {A : Type} (t : KalmanBoxTracker A) : Prop :=
  0 <= hit_streak t /\ hit_streak t <= hits t /\ hits t < age t
  /\ 1 <= time_since_update t.

(** What the pipeline needs of a solver: distinct, non-negative tracker
    indices. *)
Definition distinct_trackers (mi : list (Z * Z)) : Prop :=
  NoDup (map snd mi) /\ Forall (fun m => 0 <= snd m) mi.

(** ** Further vocabulary *)

(** The strict comparison of a number system is asymmetric. *)
Class NumOrder (A : Type) {NA : Num A} : Prop := {
  fltb_asym : forall x y : A, fltb x y = true -> fltb y x = false
}.

Arguments NumOrder A {NA}.

(** [np.diag(l)] *)
Definition diag {A : Type} {NA : Num A} (l : list A) : list (list A) :=
  mapi (fun i v => mapi (fun j _ => if Nat.eqb i j then v else zero) l) l.

(** Pairs of indices within an [n x m] matrix. *)
Definition in_range (n m : nat) (mi : list (Z * Z)) : Prop :=
  Forall (fun p => 0 <= fst p < Z.of_nat n /\ 0 <= snd p < Z.of_nat m) mi.

(** The identifiers of the live tracks are distinct and were handed out
    since the counter held [c0]. *)
Definition ids_ok {A : Type} (c0 count : Z) (l : list (KalmanBoxTracker A))
  : Prop :=
  c0 <= count
  /\ NoDup (map (fun t => id t) l) /\ Forall (fun t => c0 <= id t < count) l.

(** The identifiers returned for a frame are distinct and were handed out
    since the counter held [c0]. *)
Definition ret_ids_ok {A : Type} (c0 count : Z) (ret : list (bbox A * Z))
  : Prop :=
  NoDup (map snd ret) /\ Forall (fun r => c0 < snd r <= count) ret.

(** [history] holds one box for each [predict()] since the last
    [update()]. *)
Definition history_ok {A : Type} (t : KalmanBoxTracker A) : Prop :=
  Z.of_nat (length (history t)) = time_since_update t.

(** ** Further concrete inputs *)

(** Two tracker boxes, one for each of [two_dets]. *)
Definition two_trks : list (row float) :=
  [Row 1 0 11 10 0; Row 101 100 111 110 0]%float.

(** A tracker just made from a detection. *)
Definition new_track : KalmanBoxTracker float :=
  fst (KalmanBoxTracker_init 0 d100).

(** A tracker on the reals whose area shrinks by more than is left. *)
Definition shrinking : KalmanBoxTracker R :=
  let t := fst (KalmanBoxTracker_init 0 (Row 0 0 1 1 1)%R) in
  {| kf := set_x (kf t) [0; 0; 1; 1; 0; 0; -5]%R;
     time_since_update := 0; id := 0; history := [];
     hits := 0; hit_streak := 0; age := 0 |}.

(** The cost matrix of [two_dets] against [three_trks]. *)
Definition cost_2x3 : list (list float) :=
  map (map fneg) (iou_batch two_dets three_trks).

(** ** Properties *)

(** *** The comparisons of binary64 and of the reals *)

Lemma SFcompare_Eq_sym (a b : spec_float) :
  SFcompare a b = Some Eq -> SFcompare b a = Some Eq.
Proof.
  destruct a as [sa|sa| |sa ma ea], b as [sb|sb| |sb mb eb]; simpl;
    try discriminate; try reflexivity;
    try (destruct sa; discriminate); try (destruct sb; discriminate).
  - destruct sa, sb; try discriminate; reflexivity.
  - destruct sa, sb; try discriminate;
      (destruct (Z.compare ea eb) eqn:He; try discriminate;
       apply Z.compare_eq in He; subst eb; rewrite Z.compare_refl;
       destruct (Pos.compare_cont Eq ma mb) eqn:Hc; try discriminate;
       apply (Pos.compare_eq ma mb) in Hc; subst mb;
       change (Pos.compare_cont Eq ma ma) with (Pos.compare ma ma);
       rewrite Pos.compare_refl; reflexivity).
Qed.

Lemma float_eqb_not_lt (x y : float) :
  PrimFloat.eqb x y = true -> PrimFloat.ltb x y = false.
Proof.
  rewrite FloatAxioms.eqb_spec, FloatAxioms.ltb_spec.
  unfold SFeqb, SFltb.
  destruct (SFcompare (Prim2SF x) (Prim2SF y)) as [[ | | ]|];
    try discriminate; reflexivity.
Qed.

Lemma float_eqb_not_gt (x y : float) :
  PrimFloat.eqb x y = true -> PrimFloat.ltb y x = false.
Proof.
  rewrite FloatAxioms.eqb_spec, FloatAxioms.ltb_spec.
  unfold SFeqb, SFltb.
  destruct (SFcompare (Prim2SF x) (Prim2SF y)) as [[ | | ]|] eqn:Hc;
    try discriminate.
  intros _. rewrite (SFcompare_Eq_sym _ _ Hc). reflexivity.
Qed.

#[export] Instance Float64Laws : NumLaws float := {
  feqb_not_lt := float_eqb_not_lt;
  feqb_not_gt := float_eqb_not_gt
}.

Lemma Reqb_not_lt (x y : R) : Reqb x y = true -> Rltb x y = false.
Proof.
  unfold Reqb, Rltb. destruct (Req_dec_T x y); [|discriminate].
  intros _. destruct (Rlt_dec x y); [lra|reflexivity].
Qed.

Lemma Reqb_not_gt (x y : R) : Reqb x y = true -> Rltb y x = false.
Proof.
  unfold Reqb, Rltb. destruct (Req_dec_T x y); [|discriminate].
  intros _. destruct (Rlt_dec y x); [lra|reflexivity].
Qed.

#[export] Instance RealLaws : NumLaws R := {
  feqb_not_lt := Reqb_not_lt;
  feqb_not_gt := Reqb_not_gt
}.


Section Lists.

Context {X : Type}.

Lemma py_norm_of_nat (n k : nat) :
  (k < n)%nat -> py_norm n (Z.of_nat k) = Ok k.
Proof.
  intros H. unfold py_norm.
  replace (0 <=? Z.of_nat k) with true by (symmetry; apply Z.leb_le; lia).
  replace (Z.of_nat k <? Z.of_nat n) with true by (symmetry; apply Z.ltb_lt; lia).
  simpl. now rewrite Nat2Z.id.
Qed.

Lemma py_norm_lt (n : nat) (i : Z) (k : nat) :
  py_norm n i = Ok k -> (k < n)%nat.
Proof.
  unfold py_norm.
  destruct ((0 <=? i) && (i <? Z.of_nat n)) eqn:E1.
  - apply andb_true_iff in E1. destruct E1 as [H1 H2].
    apply Z.leb_le in H1. apply Z.ltb_lt in H2.
    intros H. injection H as <-. lia.
  - destruct ((- Z.of_nat n <=? i) && (i <? 0)) eqn:E2; [|discriminate].
    apply andb_true_iff in E2. destruct E2 as [H1 H2].
    apply Z.leb_le in H1. apply Z.ltb_lt in H2.
    intros H. injection H as <-. lia.
Qed.

Lemma py_norm_nonneg (n : nat) (i : Z) (k : nat) :
  0 <= i -> py_norm n i = Ok k -> i = Z.of_nat k.
Proof.
  intros Hi. unfold py_norm.
  destruct ((0 <=? i) && (i <? Z.of_nat n)) eqn:E1.
  - intros H. injection H as <-. lia.
  - destruct ((- Z.of_nat n <=? i) && (i <? 0)) eqn:E2; [|discriminate].
    apply andb_true_iff in E2. destruct E2 as [_ H2].
    apply Z.ltb_lt in H2. lia.
Qed.

Lemma py_index_of_nat (l : list X) (k : nat) (a : X) :
  nth_error l k = Some a -> py_index l (Z.of_nat k) = Ok a.
Proof.
  intros H. unfold py_index.
  rewrite py_norm_of_nat by (apply nth_error_Some; congruence).
  simpl. now rewrite H.
Qed.

Lemma py_index_inv (l : list X) (i : Z) (a : X) :
  py_index l i = Ok a ->
  exists k, py_norm (length l) i = Ok k /\ nth_error l k = Some a.
Proof.
  unfold py_index. destruct (py_norm (length l) i) as [k|e]; simpl; [|discriminate].
  destruct (nth_error l k) as [b|] eqn:E; [|discriminate].
  intros H. injection H as <-. now exists k.
Qed.

Lemma remove_nth_app (l1 l2 : list X) (x : X) :
  remove_nth (length l1) (l1 ++ x :: l2) = l1 ++ l2.
Proof. induction l1 as [|a l1 IH]; simpl; [reflexivity|now rewrite IH]. Qed.


Lemma nth_error_set_nth_eq (k : nat) (a : X) (l : list X) :
  (k < length l)%nat -> nth_error (set_nth k a l) k = Some a.
Proof.
  revert k. induction l as [|b l IH]; intros [|k]; simpl; intros H;
    try lia; auto. apply IH. lia.
Qed.

Lemma nth_error_set_nth_neq (k j : nat) (a : X) (l : list X) :
  j <> k -> nth_error (set_nth k a l) j = nth_error l j.
Proof.
  revert k j. induction l as [|b l IH]; intros [|k] [|j]; simpl; intros H;
    try reflexivity; try congruence. apply IH. congruence.
Qed.

Lemma Forall_set_nth (P : X -> Prop) (k : nat) (a : X) (l : list X) :
  Forall P l -> P a -> Forall P (set_nth k a l).
Proof.
  intros Hl Ha. revert k. induction Hl as [|b l Hb Hl IH]; intros [|k]; simpl;
    constructor; auto.
Qed.

Lemma Forall_remove_nth (P : X -> Prop) (k : nat) (l : list X) :
  Forall P l -> Forall P (remove_nth k l).
Proof.
  intros Hl. revert k. induction Hl as [|b l Hb Hl IH]; intros [|k]; simpl;
    auto.
Qed.

End Lists.

(** *** The last loop of [update] *)

Section FinalWalk.

Context {A : Type} {NA : Num A}.
Variables max_age min_hits frame_count : Z.

Local Abbreviation alive := (fun t : KalmanBoxTracker A => negb (dead max_age t)).
Local Abbreviation walk := (final_walk max_age min_hits frame_count).

(** With [l1] still to visit and [l2] already settled, the loop keeps the
    live tracks of [l1] in place and appends the rows of those that pass
    the emission test, last track first. *)
Lemma final_walk_app (l1 l2 : list (KalmanBoxTracker A)) (ret : list (bbox A * Z)) :
  walk (length l1) (Z.of_nat (length l1)) (l1 ++ l2) ret
  = Ok (filter alive l1 ++ l2,
        ret ++ map ret_row (filter (emits min_hits frame_count) (rev l1))).
Proof.
  revert l2 ret. induction l1 as [|x l IH] using rev_ind; intros l2 ret.
  - simpl. now rewrite app_nil_r.
  - rewrite length_app, Nat.add_comm. simpl length. simpl Nat.add.
    cbn [final_walk].
    rewrite <- app_assoc. simpl app.
    rewrite nth_error_app2 by lia. rewrite Nat.sub_diag. simpl nth_error.
    replace (Z.of_nat (S (length l)) - 1) with (Z.of_nat (length l)) by lia.
    rewrite rev_app_distr. simpl rev. simpl app.
    rewrite filter_app. simpl filter.
    destruct (dead max_age x) eqn:Hd; simpl negb; cbv iota.
    + unfold py_pop. rewrite py_norm_of_nat
        by (rewrite length_app; simpl; lia).
      simpl bind. rewrite remove_nth_app, IH, app_nil_r.
      destruct (emits min_hits frame_count x); simpl;
        now rewrite <- ?app_assoc.
    + simpl bind. rewrite IH, <- app_assoc. simpl app.
      destruct (emits min_hits frame_count x); simpl;
        now rewrite <- ?app_assoc.
Qed.

Lemma final_walk_spec (trackers : list (KalmanBoxTracker A)) :
  walk (length trackers) (Z.of_nat (length trackers)) trackers []
  = Ok (filter alive trackers,
        map ret_row (filter (emits min_hits frame_count) (rev trackers))).
Proof.
  pose proof (final_walk_app trackers [] []) as H.
  now rewrite !app_nil_r in H.
Qed.

End FinalWalk.

(** *** The association step *)

Section FilterLowIou.

Context {A : Type} {NA : Num A}.
Variable iou_matrix : list (list A).
Variable thr : A.

Local Abbreviation lowb := (low iou_matrix thr).

Lemma filter_low_iou_inv (mi : list (Z * Z)) :
  forall ud ut ms ms' ud' ut',
    filter_low_iou iou_matrix thr mi ud ut ms = Ok (ms', ud', ut') ->
    ms' = ms ++ filter (fun m => negb (lowb m)) mi
    /\ ud' = ud ++ map fst (filter lowb mi)
    /\ ut' = ut ++ map snd (filter lowb mi)
    /\ Forall (fun m => exists v, entry iou_matrix m = Ok v) mi.
Proof.
  induction mi as [|m rest IH]; intros ud ut ms ms' ud' ut'; simpl.
  - intros H. injection H as <- <- <-. now rewrite !app_nil_r.
  - unfold low, entry.
    destruct (py_index iou_matrix (fst m)) as [r|e] eqn:E1; simpl; [|discriminate].
    destruct (py_index r (snd m)) as [v|e] eqn:E2; simpl; [|discriminate].
    assert (He : exists v, entry iou_matrix m = Ok v)
      by (exists v; unfold entry; rewrite E1; simpl; exact E2).
    destruct (fltb v thr) eqn:Hv; simpl; intros H; apply IH in H;
      destruct H as (-> & -> & -> & HF);
      rewrite <- ?app_assoc; simpl; repeat split; auto.
Qed.

Lemma filter_low_iou_total (mi : list (Z * Z)) :
  Forall (fun m => exists v, entry iou_matrix m = Ok v) mi ->
  forall ud ut ms,
    filter_low_iou iou_matrix thr mi ud ut ms
    = Ok (ms ++ filter (fun m => negb (lowb m)) mi,
          ud ++ map fst (filter lowb mi),
          ut ++ map snd (filter lowb mi)).
Proof.
  induction 1 as [|m rest [v Hv] _ IH]; intros ud ut ms; simpl.
  - now rewrite !app_nil_r.
  - unfold low. unfold entry in Hv |- *.
    destruct (py_index iou_matrix (fst m)) as [r|e]; simpl in *; [|discriminate].
    rewrite Hv. simpl.
    destruct (fltb v thr); simpl; rewrite IH, <- ?app_assoc; reflexivity.
Qed.

End FilterLowIou.

Section Enumerate.

Context {X : Type}.

Lemma enumerate_from (s : nat) (l : list X) (i : Z) (x : X) :
  In (i, x) (combine (map Z.of_nat (seq s (length l))) l)
  <-> exists k, i = Z.of_nat (s + k) /\ nth_error l k = Some x.
Proof.
  revert s. induction l as [|a l IH]; intros s; simpl.
  - split; [tauto|]. intros [[|k] [_ H]]; discriminate.
  - split.
    + intros [H|H].
      * injection H as <- <-. exists 0%nat. now rewrite Nat.add_0_r.
      * apply IH in H. destruct H as [k [-> H]].
        exists (S k). split; [f_equal; lia|exact H].
    + intros [[|k] [-> H]]; simpl in H.
      * injection H as ->. left. now rewrite Nat.add_0_r.
      * right. apply IH. exists k. split; [f_equal; lia|exact H].
Qed.

Lemma in_enumerate (l : list X) (i : Z) (x : X) :
  In (i, x) (enumerate l)
  <-> exists k, i = Z.of_nat k /\ nth_error l k = Some x.
Proof. apply (enumerate_from 0). Qed.

Lemma map_fst_combine {Y : Type} (l0 : list Y) (l : list X) :
  length l0 = length l -> map fst (combine l0 l) = l0.
Proof.
  revert l. induction l0 as [|z l0 IH]; intros [|a l]; simpl; intros H;
    try discriminate; auto.
  f_equal. apply IH. congruence.
Qed.

Lemma map_fst_enumerate (l : list X) :
  map fst (enumerate l) = arange (length l).
Proof.
  apply map_fst_combine. unfold arange. now rewrite length_map, length_seq.
Qed.

Lemma NoDup_arange (n : nat) : NoDup (arange n).
Proof.
  apply Finite.Injective_map_NoDup; [|apply seq_NoDup].
  intros x y. apply Nat2Z.inj.
Qed.

Lemma in_arange (n : nat) (i : Z) : In i (arange n) <-> 0 <= i < Z.of_nat n.
Proof.
  unfold arange. rewrite in_map_iff. split.
  - intros [k [<- H]]. apply in_seq in H. lia.
  - intros H. exists (Z.to_nat i). split; [lia|]. apply in_seq. lia.
Qed.

Lemma NoDup_enumerate (l : list X) : NoDup (enumerate l).
Proof.
  apply (NoDup_map_inv fst). rewrite map_fst_enumerate. apply NoDup_arange.
Qed.

Lemma NoDup_flat_map {Y : Type} (f : X -> list Y) (l : list X) :
  NoDup l ->
  (forall x, In x l -> NoDup (f x)) ->
  (forall x y z, In x l -> In y l -> In z (f x) -> In z (f y) -> x = y) ->
  NoDup (flat_map f l).
Proof.
  induction 1 as [|a l Ha Hl IH]; intros Hf Hd; simpl; [constructor|].
  apply NoDup_app.
  - apply Hf. now left.
  - apply IH; intros; [apply Hf|eapply Hd]; eauto; now right.
  - intros z Hz Hz'. apply in_flat_map in Hz'. destruct Hz' as [y [Hy Hzy]].
    assert (a = y) by (eapply Hd; eauto; [now left|now right]).
    subst y. contradiction.
Qed.

End Enumerate.

Section Where.

Lemma zsum_cons (x : Z) (l : list Z) : zsum (x :: l) = x + zsum l.
Proof. reflexivity. Qed.

Lemma zsum_b2z_nonneg (l : list bool) : 0 <= zsum (map b2z l).
Proof.
  induction l as [|b l IH]; [cbv; discriminate|].
  simpl map. rewrite zsum_cons. destruct b; cbn [b2z]; lia.
Qed.

Lemma one_true (l : list bool) (k : nat) :
  nth_error l k = Some true -> 1 <= zsum (map b2z l).
Proof.
  revert k. induction l as [|b l IH]; intros [|k]; simpl nth_error;
    try discriminate; simpl map; rewrite zsum_cons.
  - intros H. injection H as ->. pose proof (zsum_b2z_nonneg l). cbn [b2z]. lia.
  - intros H. apply IH in H. destruct b; cbn [b2z]; lia.
Qed.

Lemma two_true (l : list bool) (k1 k2 : nat) :
  k1 <> k2 ->
  nth_error l k1 = Some true -> nth_error l k2 = Some true ->
  2 <= zsum (map b2z l).
Proof.
  revert k1 k2. induction l as [|b l IH]; intros [|k1] [|k2] Hk;
    simpl nth_error; try discriminate; try congruence;
    simpl map; rewrite zsum_cons.
  - intros H1 H2. injection H1 as ->. apply one_true in H2. cbn [b2z]. lia.
  - intros H1 H2. injection H2 as ->. apply one_true in H1. cbn [b2z]. lia.
  - intros H1 H2. assert (2 <= zsum (map b2z l))
      by (apply (IH k1 k2); [congruence|assumption|assumption]).
    destruct b; cbn [b2z]; lia.
Qed.

Lemma amax_ge (l : list Z) (x : Z) : In x l -> x <= amax l.
Proof.
  destruct l as [|a l]; [intros []|]. simpl amax.
  induction l as [|b l IH]; simpl.
  - intros [->|[]]. lia.
  - intros [->|[->|H]].
    + assert (x <= fold_right Z.max x l) by (apply IH; now left). lia.
    + lia.
    + assert (x <= fold_right Z.max a l) by (apply IH; now right). lia.
Qed.

Lemma in_where (a : list (list bool)) (i j : Z) :
  In (i, j) (where_ a)
  <-> exists ki kj r, i = Z.of_nat ki /\ j = Z.of_nat kj
                      /\ nth_error a ki = Some r /\ nth_error r kj = Some true.
Proof.
  unfold where_. rewrite in_flat_map. split.
  - intros [[i' r] [Hir H]]. simpl in H.
    apply in_map_iff in H. destruct H as [[j' b] [E H]]. simpl in E.
    injection E as <- <-.
    apply filter_In in H. destruct H as [H Hb]. simpl in Hb. subst b.
    apply in_enumerate in Hir. destruct Hir as [ki [-> Hki]].
    apply in_enumerate in H. destruct H as [kj [-> Hkj]].
    now exists ki, kj, r.
  - intros (ki & kj & r & -> & -> & Hki & Hkj).
    exists (Z.of_nat ki, r). split.
    + apply in_enumerate. now exists ki.
    + simpl. apply in_map_iff. exists (Z.of_nat kj, true). split; [reflexivity|].
      apply filter_In. split; [|reflexivity].
      apply in_enumerate. now exists kj.
Qed.

Lemma NoDup_where (a : list (list bool)) : NoDup (where_ a).
Proof.
  unfold where_. apply NoDup_flat_map.
  - apply NoDup_enumerate.
  - intros [i r] _. simpl.
    apply NoDup_map_NoDup_ForallPairs; [|apply NoDup_filter, NoDup_enumerate].
    intros [j1 c1] [j2 c2] H1 H2 E. simpl in E. injection E as ->.
    apply filter_In in H1, H2. destruct H1 as [_ H1], H2 as [_ H2].
    simpl in H1, H2. now subst.
  - intros [i1 r1] [i2 r2] z H1 H2 Hz1 Hz2. simpl in Hz1, Hz2.
    apply in_map_iff in Hz1, Hz2.
    destruct Hz1 as [jb1 [E1 _]], Hz2 as [jb2 [E2 _]]. subst z.
    injection E2 as -> _.
    apply in_enumerate in H1, H2.
    destruct H1 as [k1 [E1 H1]], H2 as [k2 [E2 H2]].
    assert (k1 = k2) by lia. subst k2. congruence.
Qed.

Lemma NoDup_where_rows (a : list (list bool)) :
  amax (row_sums a) = 1 -> NoDup (map fst (where_ a)).
Proof.
  intros Hmax. apply NoDup_map_NoDup_ForallPairs; [|apply NoDup_where].
  intros [i1 j1] [i2 j2] H1 H2 E. simpl in E. subst i2.
  apply in_where in H1, H2.
  destruct H1 as (ki & kj1 & r & -> & -> & Hr & H1).
  destruct H2 as (ki' & kj2 & r' & E & -> & Hr' & H2).
  apply Nat2Z.inj in E. subst ki'. rewrite Hr in Hr'. injection Hr' as <-.
  destruct (Nat.eq_dec kj1 kj2) as [->|Hne]; [reflexivity|].
  pose proof (two_true _ Hne H1 H2) as Htwo.
  assert (zsum (map b2z r) <= amax (row_sums a)).
  { apply amax_ge. unfold row_sums. apply in_map_iff. exists r.
    split; [reflexivity|]. eapply nth_error_In; eauto. }
  lia.
Qed.

Lemma NoDup_where_cols (m : nat) (a : list (list bool)) :
  Forall (fun r => length r = m) a ->
  amax (col_sums m a) = 1 -> NoDup (map snd (where_ a)).
Proof.
  intros Hlen Hmax. apply NoDup_map_NoDup_ForallPairs; [|apply NoDup_where].
  intros [i1 j1] [i2 j2] H1 H2 E. simpl in E. subst j2.
  apply in_where in H1, H2.
  destruct H1 as (ki1 & kj & r1 & -> & -> & Hr1 & H1).
  destruct H2 as (ki2 & kj' & r2 & -> & E & Hr2 & H2).
  apply Nat2Z.inj in E. subst kj'.
  destruct (Nat.eq_dec ki1 ki2) as [->|Hne]; [reflexivity|].
  set (c := map (fun r => nth kj r false) a).
  assert (Hc1 : nth_error c ki1 = Some true).
  { unfold c. rewrite nth_error_map, Hr1. simpl. f_equal.
    now apply nth_error_nth. }
  assert (Hc2 : nth_error c ki2 = Some true).
  { unfold c. rewrite nth_error_map, Hr2. simpl. f_equal.
    now apply nth_error_nth. }
  pose proof (two_true _ Hne Hc1 Hc2) as Htwo.
  assert (zsum (map b2z c) <= amax (col_sums m a)).
  { apply amax_ge. unfold col_sums. apply in_map_iff. exists kj. split.
    - unfold c. now rewrite map_map.
    - apply in_seq. split; [lia|]. simpl.
      rewrite Forall_forall in Hlen.
      rewrite <- (Hlen r1) by (eapply nth_error_In; eauto).
      apply nth_error_Some. congruence. }
  lia.
Qed.

Lemma where_is_assignment (n m : nat) (a : list (list bool)) :
  length a = n -> Forall (fun r => length r = m) a ->
  amax (row_sums a) = 1 -> amax (col_sums m a) = 1 ->
  is_assignment n m (where_ a).
Proof.
  intros Hn Hm Hr Hc. repeat split.
  - now apply NoDup_where_rows.
  - now apply NoDup_where_cols with m.
  - apply Forall_forall. intros [i j] H. apply in_where in H.
    destruct H as (ki & kj & r & -> & -> & Hki & Hkj). simpl.
    rewrite Forall_forall in Hm.
    assert (ki < n)%nat by (rewrite <- Hn; apply nth_error_Some; congruence).
    assert (kj < m)%nat.
    { rewrite <- (Hm r) by (eapply nth_error_In; eauto).
      apply nth_error_Some. congruence. }
    lia.
Qed.

End Where.

Lemma zmem_In (d : Z) (l : list Z) : zmem d l = true <-> In d l.
Proof.
  unfold zmem. rewrite existsb_exists. split.
  - intros [x [Hx E]]. apply Z.eqb_eq in E. now subst.
  - intros H. exists d. split; [exact H|apply Z.eqb_refl].
Qed.

Lemma Permutation_filter_split {X : Type} (p : X -> bool) (l : list X) :
  Permutation (filter (fun x => negb (p x)) l ++ filter p l) l.
Proof.
  induction l as [|x l IH]; simpl; [constructor|].
  destruct (p x); simpl.
  - apply Permutation_sym, Permutation_cons_app, Permutation_sym, IH.
  - now constructor.
Qed.

(** Kept pairs, untouched indices and demoted pairs together cover the
    index range once. *)
Lemma Permutation_indices {X : Type} (f : X -> Z) (p : X -> bool)
    (mi : list X) (n : nat) :
  NoDup (map f mi) ->
  (forall x, In x (map f mi) -> In x (arange n)) ->
  Permutation
    (map f (filter (fun m => negb (p m)) mi)
     ++ filter (fun d => negb (zmem d (map f mi))) (arange n)
     ++ map f (filter p mi))
    (arange n).
Proof.
  intros Hnd Hin.
  set (C := filter (fun d => negb (zmem d (map f mi))) (arange n)).
  transitivity (map f mi ++ C).
  - transitivity (map f (filter (fun m => negb (p m)) mi)
                  ++ map f (filter p mi) ++ C).
    + apply Permutation_app_head, Permutation_app_comm.
    + rewrite app_assoc, <- map_app.
      apply Permutation_app_tail, Permutation_map, Permutation_filter_split.
  - apply NoDup_Permutation.
    + apply NoDup_app; [exact Hnd|apply NoDup_filter, NoDup_arange|].
      intros x Hx HC. apply filter_In in HC. destruct HC as [_ HC].
      apply zmem_In in Hx. rewrite Hx in HC. discriminate.
    + apply NoDup_arange.
    + intros x. rewrite in_app_iff. split.
      * intros [H|H]; [now apply Hin|]. apply filter_In in H. tauto.
      * intros H. destruct (zmem x (map f mi)) eqn:E.
        -- left. now apply zmem_In.
        -- right. apply filter_In. split; [exact H|]. now rewrite E.
Qed.

Section Association.

Context {A : Type} {NA : Num A}.
Variable lap : option (list (list A) -> result (list Z * list Z)).
Variable linear_sum_assignment : list (list A) -> result (list Z * list Z).

Local Abbreviation associate :=
  (associate_detections_to_trackers lap linear_sum_assignment).
Local Abbreviation solve := (linear_assignment lap linear_sum_assignment).
Local Abbreviation candidates := (candidate_pairs lap linear_sum_assignment).

Lemma length_iou_batch (D T : list (row A)) :
  length (iou_batch D T) = length D.
Proof. unfold iou_batch. apply length_map. Qed.

Lemma width_iou_batch (D T : list (row A)) :
  Forall (fun r => length r = length T) (iou_batch D T).
Proof.
  unfold iou_batch. apply Forall_forall. intros r H.
  apply in_map_iff in H. destruct H as [d [<- _]]. apply length_map.
Qed.

Lemma candidates_assignment (D T : list (row A)) (thr : A) (mi : list (Z * Z)) :
  (forall mi', solve (map (map fneg) (iou_batch D T)) = Ok mi' ->
               is_assignment (length D) (length T) mi') ->
  candidates (iou_batch D T) (length D) (length T) thr = Ok mi ->
  is_assignment (length D) (length T) mi.
Proof.
  intros Hsolve. unfold candidate_pairs.
  destruct (0 <? Z.of_nat (Nat.min (length D) (length T))).
  - match goal with
    | |- context [if ?c then _ else _] => destruct c eqn:Hfast
    end.
    + intros H. injection H as <-.
      apply andb_true_iff in Hfast. destruct Hfast as [Hr Hc].
      apply Z.eqb_eq in Hr, Hc.
      apply where_is_assignment; auto.
      * now rewrite length_map, length_iou_batch.
      * apply Forall_forall. intros r H. apply in_map_iff in H.
        destruct H as [r' [<- H]]. rewrite length_map.
        pose proof (width_iou_batch D T) as HW.
        rewrite Forall_forall in HW. now apply HW.
    + destruct (solve (map (map fneg) (iou_batch D T))) as [mi'|e] eqn:E;
        simpl; [|discriminate].
      destruct mi' as [|m mi']; [discriminate|].
      intros H. injection H as <-. now apply Hsolve.
  - intros H. injection H as <-. repeat split; simpl; constructor.
Qed.

Lemma associate_inv (D T : list (row A)) (thr : A)
    (matches : list (Z * Z)) (ud ut : list Z) :
  associate D T thr = Ok (matches, ud, ut) ->
  (T = [] /\ matches = [] /\ ud = arange (length D) /\ ut = [])
  \/ (T <> [] /\ exists mi,
        candidates (iou_batch D T) (length D) (length T) thr = Ok mi
        /\ matches = filter (fun m => negb (low (iou_batch D T) thr m)) mi
        /\ ud = filter (fun d => negb (zmem d (map fst mi))) (arange (length D))
                ++ map fst (filter (low (iou_batch D T) thr) mi)
        /\ ut = filter (fun t => negb (zmem t (map snd mi))) (arange (length T))
                ++ map snd (filter (low (iou_batch D T) thr) mi)
        /\ Forall (fun m => exists v, entry (iou_batch D T) m = Ok v) mi).
Proof.
  unfold associate_detections_to_trackers.
  destruct T as [|t0 T']; simpl Nat.eqb; cbv iota.
  - intros H. injection H as <- <- <-. now left.
  - destruct (candidates (iou_batch D (t0 :: T')) (length D)
                         (length (t0 :: T')) thr) as [mi|e] eqn:E;
      simpl bind; [|discriminate].
    intros H. apply filter_low_iou_inv in H.
    destruct H as (-> & -> & -> & HF).
    right. split; [discriminate|]. exists mi. auto.
Qed.

(** C3: no pair of the matches returned by
    [associate_detections_to_trackers] has an entry of the IoU matrix
    below [iou_threshold]: for every returned pair the entry read by the
    program exists and is not below the threshold; and every candidate
    pair, of the fast path or of the solver, whose entry is below the
    threshold is left out of the matches, its detection added to the
    unmatched detections and its tracker to the unmatched trackers. *)
Theorem C3_no_match_below_threshold (D T : list (row A)) (thr : A)
    (matches : list (Z * Z)) (ud ut : list Z) :
  associate D T thr = Ok (matches, ud, ut) ->
  (forall d t, In (d, t) matches ->
     exists v, entry (iou_batch D T) (d, t) = Ok v /\ fltb v thr = false)
  /\ (forall mi d t v,
        candidates (iou_batch D T) (length D) (length T) thr = Ok mi ->
        In (d, t) mi ->
        entry (iou_batch D T) (d, t) = Ok v -> fltb v thr = true ->
        ~ In (d, t) matches /\ In d ud /\ In t ut).
Proof.
  intros H. apply associate_inv in H.
  destruct H as [(-> & -> & -> & ->)|(_ & mi & Hc & -> & -> & -> & HF)].
  - split.
    + intros d t [].
    + intros mi d t v Hc Hin Hv _. exfalso.
      unfold candidate_pairs in Hc. rewrite Nat.min_0_r in Hc. simpl in Hc.
      injection Hc as <-. destruct Hin.
  - split.
    + intros d t Hin. apply filter_In in Hin. destruct Hin as [Hin Hlow].
      rewrite Forall_forall in HF. destruct (HF _ Hin) as [v Hv].
      exists v. split; [exact Hv|].
      unfold low in Hlow. rewrite Hv in Hlow.
      now apply negb_true_iff in Hlow.
    + intros mi' d t v Hc' Hin Hv Hlt.
      rewrite Hc in Hc'. injection Hc' as <-.
      assert (Hlow : low (iou_batch D T) thr (d, t) = true)
        by (unfold low; now rewrite Hv).
      assert (Hf : In (d, t) (filter (low (iou_batch D T) thr) mi))
        by (apply filter_In; auto).
      repeat split.
      * intros Hm. apply filter_In in Hm. destruct Hm as [_ Hm].
        rewrite Hlow in Hm. discriminate.
      * apply in_or_app. right. now apply (in_map fst) in Hf.
      * apply in_or_app. right. now apply (in_map snd) in Hf.
Qed.

(** C6: when the assignment solver answers with an assignment, the three
    outputs of [associate_detections_to_trackers] partition the index
    ranges: the detection indices of the matches followed by the unmatched
    detections are a rearrangement of [0..|D|-1], each index once, and so
    are the tracker indices of the matches followed by the unmatched
    trackers for [0..|T|-1]. *)
Theorem C6_outputs_partition_indices (D T : list (row A)) (thr : A)
    (matches : list (Z * Z)) (ud ut : list Z) :
  (forall mi, solve (map (map fneg) (iou_batch D T)) = Ok mi ->
              is_assignment (length D) (length T) mi) ->
  associate D T thr = Ok (matches, ud, ut) ->
  Permutation (map fst matches ++ ud) (arange (length D))
  /\ Permutation (map snd matches ++ ut) (arange (length T)).
Proof.
  intros Hsolve H. apply associate_inv in H.
  destruct H as [(-> & -> & -> & ->)|(_ & mi & Hc & -> & -> & -> & _)].
  - simpl. split; reflexivity.
  - apply candidates_assignment in Hc; [|exact Hsolve].
    destruct Hc as (Hf & Hs & Hr). rewrite Forall_forall in Hr.
    split; apply Permutation_indices; auto.
    + intros x Hx. apply in_map_iff in Hx. destruct Hx as [m [<- Hm]].
      apply in_arange. now apply Hr.
    + intros x Hx. apply in_map_iff in Hx. destruct Hx as [m [<- Hm]].
      apply in_arange. now apply Hr.
Qed.

Context {NL : NumLaws A}.


End Association.

(** *** The per-frame pipeline *)

Section Pipeline.

Context {A : Type} {NA : Num A}.
Variable kf_predict : KalmanFilter A -> KalmanFilter A.
Variable kf_update : KalmanFilter A -> list A -> result (KalmanFilter A).
Variable lap : option (list (list A) -> result (list Z * list Z)).
Variable linear_sum_assignment : list (list A) -> result (list Z * list Z).

Local Abbreviation associate :=
  (associate_detections_to_trackers lap linear_sum_assignment).
Local Abbreviation solve := (linear_assignment lap linear_sum_assignment).
Local Abbreviation prune := (predict_and_prune kf_predict).
Local Abbreviation upd_matched := (update_matched kf_update).
Local Abbreviation upd_tracks :=
  (update_tracks kf_predict kf_update lap linear_sum_assignment).
Local Abbreviation upd :=
  (update kf_predict kf_update lap linear_sum_assignment).
Local Abbreviation run_ :=
  (run kf_predict kf_update lap linear_sum_assignment).

Lemma update_unfold (count : Z) (self : Sort A) (dets : list (row A))
    (c fc : Z) (trs : list (KalmanBoxTracker A)) :
  upd_tracks count self dets = Ok (c, fc, trs) ->
  upd count self dets
  = Ok (c,
        {| max_age := max_age self; min_hits := min_hits self;
           iou_threshold := iou_threshold self;
           trackers := filter (fun t => negb (dead (max_age self) t)) trs;
           frame_count := fc |},
        map ret_row (filter (emits (min_hits self) fc) (rev trs))).
Proof.
  intros H. unfold update. rewrite H. simpl bind.
  now rewrite final_walk_spec.
Qed.

(** C5: in the last loop of [update] a track is removed from the live set
    exactly when its [time_since_update] exceeds [max_age]: the live set
    left by the call is, in order, the tracks of the set built by the
    earlier steps (prediction, removal of NaN tracks, updates, births)
    whose [time_since_update] is at most [max_age]. *)
Theorem C5_removed_iff_older_than_max_age (count : Z) (self : Sort A)
    (dets : list (row A)) (c fc : Z) (trs : list (KalmanBoxTracker A)) :
  upd_tracks count self dets = Ok (c, fc, trs) ->
  exists self' ret,
    upd count self dets = Ok (c, self', ret)
    /\ trackers self'
       = filter (fun t => (time_since_update t <=? max_age self)%Z) trs.
Proof.
  intros H. rewrite (update_unfold _ _ _ H).
  eexists. eexists. split; [reflexivity|]. simpl.
  apply filter_ext. intros t. unfold dead.
  now rewrite Z.leb_antisym.
Qed.

Lemma predict_loop_Forall (P Q : KalmanBoxTracker A -> Prop) :
  (forall t, P t -> Q (fst (KalmanBoxTracker_predict kf_predict t))) ->
  forall l k, Forall P l ->
    Forall Q (fst (fst (predict_loop kf_predict k l))).
Proof.
  intros HPQ. induction l as [|t l IH]; intros k Hl; simpl; [constructor|].
  inversion Hl as [|? ? Ht Hl']; subst.
  specialize (IH (k + 1) Hl'). specialize (HPQ t Ht).
  unfold KalmanBoxTracker_predict in *. simpl in HPQ.
  destruct (predict_loop kf_predict (k + 1) l) as [[trs trks] to_del].
  simpl in *. constructor; assumption.
Qed.

Lemma pop_all_Forall (P : KalmanBoxTracker A -> Prop) (dels : list Z) :
  forall l l', Forall P l -> pop_all l dels = Ok l' -> Forall P l'.
Proof.
  induction dels as [|d dels IH]; intros l l' Hl; simpl.
  - intros H. now injection H as <-.
  - unfold py_pop. destruct (py_norm (length l) d) as [k|e]; simpl;
      [|discriminate].
    apply IH. now apply Forall_remove_nth.
Qed.

Lemma prune_Forall (P Q : KalmanBoxTracker A -> Prop)
    (l l' : list (KalmanBoxTracker A)) (trks : list (row A)) :
  (forall t, P t -> Q (fst (KalmanBoxTracker_predict kf_predict t))) ->
  Forall P l -> prune l = Ok (l', trks) -> Forall Q l'.
Proof.
  intros HPQ Hl. unfold predict_and_prune.
  pose proof (@predict_loop_Forall P Q HPQ l 0 Hl) as H.
  destruct (predict_loop kf_predict 0 l) as [[trs trks0] to_del]. simpl in H.
  destruct (pop_all trs (rev to_del)) as [l0|e] eqn:E; simpl; [|discriminate].
  intros H'. injection H' as <- _. eapply pop_all_Forall; eauto.
Qed.

Lemma pop_all_app (l : list (KalmanBoxTracker A)) (d1 d2 : list Z) :
  pop_all l (d1 ++ d2) = (l' <- pop_all l d1 ;; pop_all l' d2).
Proof.
  revert l. induction d1 as [|d d1 IH]; intros l; simpl; [reflexivity|].
  destruct (py_pop l d) as [l'|e]; simpl; [apply IH|reflexivity].
Qed.

(** The loop over [enumerate(trks)], seen on the pairs returned by
    [predict()]. *)
Lemma predict_loop_spec (l : list (KalmanBoxTracker A)) :
  forall t,
    let ps := map (KalmanBoxTracker_predict kf_predict) l in
    fst (fst (predict_loop kf_predict t l)) = map fst ps
    /\ snd (fst (predict_loop kf_predict t l)) = map (fun p => trk_row (snd p)) ps.
Proof.
  induction l as [|trk l IH]; intros t; simpl; [split; reflexivity|].
  destruct (IH (t + 1)) as [H1 H2].
  destruct (predict_loop kf_predict (t + 1) l) as [[trs trks] to_del].
  simpl in *. now rewrite H1, H2.
Qed.

(** Popping the indices of [to_del], last first, removes exactly the
    trackers whose predicted box has a NaN. *)
Lemma pop_to_del (l : list (KalmanBoxTracker A)) :
  forall pre : list (KalmanBoxTracker A),
    pop_all (pre ++ fst (fst (predict_loop kf_predict (Z.of_nat (length pre)) l)))
            (rev (snd (predict_loop kf_predict (Z.of_nat (length pre)) l)))
    = Ok (pre ++ map fst (filter (fun p => negb (any_isnan (snd p)))
                                 (map (KalmanBoxTracker_predict kf_predict) l))).
Proof.
  induction l as [|trk l IH]; intros pre; [reflexivity|].
  specialize (IH (pre ++ [fst (KalmanBoxTracker_predict kf_predict trk)])).
  rewrite length_app, Nat.add_comm in IH. simpl length in IH. simpl Nat.add in IH.
  rewrite Nat2Z.inj_succ, <- Z.add_1_r in IH.
  rewrite <- !app_assoc in IH. simpl app in IH.
  simpl predict_loop. simpl map. simpl filter.
  destruct (predict_loop kf_predict (Z.of_nat (length pre) + 1) l)
    as [[trs trks] to_del].
  simpl fst in *. simpl snd in *.
  destruct (any_isnan (convert_x_to_bbox _)) eqn:Hnan; simpl negb; cbv iota.
  - simpl rev. rewrite pop_all_app, IH. simpl bind. simpl pop_all.
    unfold py_pop. rewrite py_norm_of_nat
      by (rewrite length_app; simpl; lia).
    simpl bind. now rewrite remove_nth_app.
  - exact IH.
Qed.

(** What the first part of [update] leaves: the trackers whose predicted
    box has no NaN, and the rows without NaN or infinite entry. *)
Lemma predict_and_prune_spec (l : list (KalmanBoxTracker A)) :
  let ps := map (KalmanBoxTracker_predict kf_predict) l in
  prune l
  = Ok (map fst (filter (fun p => negb (any_isnan (snd p))) ps),
        filter (fun r => negb (row_invalid r))
               (map (fun p => trk_row (snd p)) ps)).
Proof.
  intros ps. unfold predict_and_prune.
  pose proof (pop_to_del l []) as Hpop.
  destruct (predict_loop_spec l 0) as [_ Hrows].
  simpl in Hpop.
  destruct (predict_loop kf_predict 0 l) as [[trs trks] to_del].
  simpl in *. rewrite Hpop. simpl. unfold compress_rows_masked_invalid.
  now rewrite Hrows.
Qed.

(** When no predicted box has an infinite entry without having a NaN, the
    trackers left and the rows left are the two halves of one list of
    predictions: row [i] is the predicted box of tracker [i]. *)
Lemma prune_aligned (l : list (KalmanBoxTracker A)) :
  (forall trk, In trk l ->
     row_invalid (trk_row (snd (KalmanBoxTracker_predict kf_predict trk)))
     = any_isnan (snd (KalmanBoxTracker_predict kf_predict trk))) ->
  exists ps,
    prune l = Ok (map fst ps, map (fun p => trk_row (snd p)) ps)
    /\ ps = filter (fun p => negb (any_isnan (snd p)))
                   (map (KalmanBoxTracker_predict kf_predict) l).
Proof.
  intros Hinf. eexists. split; [|reflexivity].
  rewrite predict_and_prune_spec. cbv zeta. f_equal. f_equal.
  induction l as [|trk l IH]; [reflexivity|].
  cbn [map filter].
  rewrite (Hinf trk) by now left.
  rewrite IH by (intros t Ht; apply Hinf; now right).
  destruct (any_isnan (snd (KalmanBoxTracker_predict kf_predict trk)));
    reflexivity.
Qed.


Lemma create_new_app (dets : list (row A)) (ud : list Z) :
  forall count l c l',
    create_new count l dets ud = Ok (c, l') ->
    exists new, l' = l ++ new
                /\ Forall (fun t => time_since_update t = 0 /\ hits t = 0
                                    /\ hit_streak t = 0 /\ age t = 0) new.
Proof.
  induction ud as [|i ud IH]; intros count l c l'; simpl.
  - intros H. injection H as <- <-. exists []. now rewrite app_nil_r.
  - destruct (py_index dets i) as [d|e]; simpl; [|discriminate].
    intros H. apply IH in H. destruct H as [new [-> Hnew]].
    eexists. rewrite <- app_assoc. split; [reflexivity|].
    simpl. constructor; auto.
Qed.

Lemma predict_time (t : KalmanBoxTracker A) :
  0 <= time_since_update t ->
  1 <= time_since_update (fst (KalmanBoxTracker_predict kf_predict t)).
Proof. simpl. lia. Qed.


Lemma update_tracks_inv (count : Z) (self : Sort A) (dets : list (row A))
    (c fc : Z) (trs : list (KalmanBoxTracker A)) :
  upd_tracks count self dets = Ok (c, fc, trs) ->
  exists trackers2 trks matched ud ut trackers3,
    prune (trackers self) = Ok (trackers2, trks)
    /\ associate dets trks (iou_threshold self) = Ok (matched, ud, ut)
    /\ upd_matched trackers2 dets matched = Ok trackers3
    /\ create_new count trackers3 dets ud = Ok (c, trs)
    /\ fc = frame_count self + 1.
Proof.
  unfold update_tracks.
  destruct (prune (trackers self)) as [[trackers2 trks]|e] eqn:Ep; simpl bind;
    [|discriminate].
  destruct (associate dets trks (iou_threshold self)) as [[[matched ud] ut]|e]
    eqn:Ea; simpl bind; [|discriminate].
  destruct (upd_matched trackers2 dets matched) as [trackers3|e] eqn:Eu;
    simpl bind; [|discriminate].
  destruct (create_new count trackers3 dets ud) as [[c' trs']|e] eqn:Ec;
    simpl bind; [|discriminate].
  intros H. injection H as <- <- <-.
  exists trackers2, trks, matched, ud, ut, trackers3. repeat split; auto.
Qed.

Lemma predict_counters (t : KalmanBoxTracker A) :
  counters_ok t -> predicted_ok (fst (KalmanBoxTracker_predict kf_predict t)).
Proof.
  unfold counters_ok, predicted_ok. simpl.
  destruct (time_since_update t >? 0); lia.
Qed.

Lemma update_counters (t t' : KalmanBoxTracker A) (d : row A) :
  predicted_ok t -> KalmanBoxTracker_update kf_update t d = Ok t' ->
  counters_ok t'.
Proof.
  unfold counters_ok, predicted_ok, KalmanBoxTracker_update.
  destruct (kf_update (kf t) (convert_bbox_to_z d)); simpl; [|discriminate].
  intros H E. injection E as <-. simpl. lia.
Qed.

Lemma predicted_counters (t : KalmanBoxTracker A) :
  predicted_ok t -> counters_ok t.
Proof. unfold counters_ok, predicted_ok. lia. Qed.

Lemma NoDup_map_filter {X Y : Type} (f : X -> Y) (p : X -> bool) (l : list X) :
  NoDup (map f l) -> NoDup (map f (filter p l)).
Proof.
  induction l as [|x l IH]; simpl; intros H; [constructor|].
  inversion H as [|? ? Hx Hl]; subst.
  destruct (p x); simpl; auto. constructor; auto.
  intros Hin. apply Hx. apply in_map_iff in Hin.
  destruct Hin as [y [E Hy]]. apply filter_In in Hy.
  apply in_map_iff. exists y. tauto.
Qed.

Lemma candidates_distinct (D T : list (row A)) (thr : A) (mi : list (Z * Z)) :
  (forall cost mi', solve cost = Ok mi' -> distinct_trackers mi') ->
  candidate_pairs lap linear_sum_assignment (iou_batch D T) (length D)
                  (length T) thr = Ok mi ->
  distinct_trackers mi.
Proof.
  intros Hsolve. unfold candidate_pairs.
  destruct (0 <? Z.of_nat (Nat.min (length D) (length T))).
  - match goal with
    | |- context [if ?c then _ else _] => destruct c eqn:Hfast
    end.
    + intros H. injection H as <-.
      apply andb_true_iff in Hfast. destruct Hfast as [_ Hc].
      apply Z.eqb_eq in Hc. split.
      * apply NoDup_where_cols with (length T); auto.
        apply Forall_forall. intros r H. apply in_map_iff in H.
        destruct H as [r' [<- H]]. rewrite length_map.
        pose proof (width_iou_batch D T) as HW.
        rewrite Forall_forall in HW. now apply HW.
      * apply Forall_forall. intros [i j] H. apply in_where in H.
        destruct H as (ki & kj & r & -> & -> & _). simpl. lia.
    + destruct (solve (map (map fneg) (iou_batch D T))) as [mi'|e] eqn:E;
        simpl; [|discriminate].
      destruct mi' as [|m mi']; [discriminate|].
      intros H. injection H as <-. now apply Hsolve in E.
  - intros H. injection H as <-. split; simpl; constructor.
Qed.

Lemma associate_distinct (D T : list (row A)) (thr : A)
    (matched : list (Z * Z)) (ud ut : list Z) :
  (forall cost mi, solve cost = Ok mi -> distinct_trackers mi) ->
  associate D T thr = Ok (matched, ud, ut) ->
  distinct_trackers matched.
Proof.
  intros Hsolve H. apply associate_inv in H.
  destruct H as [(_ & -> & _)|(_ & mi & Hc & -> & _)].
  - split; simpl; constructor.
  - apply candidates_distinct in Hc; [|exact Hsolve].
    destruct Hc as [Hnd Hpos]. split.
    + now apply NoDup_map_filter.
    + apply Forall_forall. intros m Hm. apply filter_In in Hm.
      rewrite Forall_forall in Hpos. now apply Hpos.
Qed.

Lemma update_matched_counters (dets : list (row A)) (matched : list (Z * Z)) :
  distinct_trackers matched ->
  forall l l',
    Forall counters_ok l ->
    (forall m k trk, In m matched -> snd m = Z.of_nat k ->
                     nth_error l k = Some trk -> predicted_ok trk) ->
    upd_matched l dets matched = Ok l' ->
    Forall counters_ok l'.
Proof.
  intros [Hnd Hpos].
  induction matched as [|m rest IH]; intros l l' Hl Hpred; simpl.
  - intros H. now injection H as <-.
  - inversion Hnd as [|? ? Hm Hnd']; subst.
    inversion Hpos as [|? ? Hm0 Hpos']; subst.
    destruct (py_index l (snd m)) as [trk|e] eqn:Ei; simpl; [|discriminate].
    destruct (py_index dets (fst m)) as [d|e]; simpl; [|discriminate].
    destruct (KalmanBoxTracker_update kf_update trk d) as [trk'|e] eqn:Eu;
      simpl; [|discriminate].
    apply py_index_inv in Ei. destruct Ei as [k [Ek Enth]].
    unfold py_setitem. rewrite Ek. simpl.
    pose proof (py_norm_nonneg _ Hm0 Ek) as Hk.
    apply IH; auto.
    + apply Forall_set_nth; auto.
      eapply update_counters; [|exact Eu].
      eapply Hpred; eauto. now left.
    + intros m' k' trk0 Hin Hk' Hnth.
      assert (k' <> k).
      { intros ->. apply Hm. apply in_map_iff. exists m'. split; congruence. }
      rewrite nth_error_set_nth_neq in Hnth by assumption.
      eapply Hpred; eauto. now right.
Qed.

Lemma update_tracks_counters (count : Z) (self : Sort A) (dets : list (row A))
    (c fc : Z) (trs : list (KalmanBoxTracker A)) :
  (forall cost mi, solve cost = Ok mi -> distinct_trackers mi) ->
  Forall counters_ok (trackers self) ->
  upd_tracks count self dets = Ok (c, fc, trs) ->
  Forall counters_ok trs.
Proof.
  intros Hsolve Hok H. apply update_tracks_inv in H.
  destruct H as (trackers2 & trks & matched & ud & ut & trackers3
                 & Hp & Ha & Hu & Hc & _).
  assert (H2 : Forall predicted_ok trackers2)
    by (eapply prune_Forall; [apply predict_counters|exact Hok|exact Hp]).
  assert (H3 : Forall counters_ok trackers3).
  { eapply update_matched_counters; [| |intros m k trk _ _ Hnth|exact Hu].
    - eapply associate_distinct; eauto.
    - eapply Forall_impl; [|exact H2]. apply predicted_counters.
    - rewrite Forall_forall in H2. apply H2. eapply nth_error_In; eauto. }
  apply create_new_app in Hc. destruct Hc as [new [-> Hnew]].
  apply Forall_app. split; [exact H3|].
  eapply Forall_impl; [|exact Hnew].
  intros t (E1 & E2 & E3 & E4). unfold counters_ok. lia.
Qed.

Lemma update_counters_ok (count : Z) (self self' : Sort A)
    (dets : list (row A)) (c : Z) (ret : list (bbox A * Z)) :
  (forall cost mi, solve cost = Ok mi -> distinct_trackers mi) ->
  Forall counters_ok (trackers self) ->
  upd count self dets = Ok (c, self', ret) ->
  Forall counters_ok (trackers self').
Proof.
  intros Hsolve Hok H.
  destruct (upd_tracks count self dets) as [[[c' fc] trs]|e] eqn:E.
  - rewrite (update_unfold _ _ _ E) in H. injection H as <- <- <-. simpl.
    apply Forall_forall. intros t Ht. apply filter_In in Ht.
    pose proof (update_tracks_counters _ _ _ Hsolve Hok E) as Htrs.
    rewrite Forall_forall in Htrs. apply Htrs. tauto.
  - unfold update in H. rewrite E in H. discriminate.
Qed.

Lemma run_counters_ok (frames : list (list (row A))) :
  (forall cost mi, solve cost = Ok mi -> distinct_trackers mi) ->
  forall count self c self' rets,
    Forall counters_ok (trackers self) ->
    run_ count self frames = Ok (c, self', rets) ->
    Forall counters_ok (trackers self').
Proof.
  intros Hsolve. induction frames as [|dets rest IH];
    intros count self c self' rets Hok; simpl.
  - intros H. now injection H as <- <- <-.
  - destruct (upd count self dets) as [[[c1 s1] ret]|e] eqn:E; simpl bind;
      [|discriminate].
    destruct (run_ c1 s1 rest) as [[[c2 s2] rets']|e] eqn:Er; simpl bind;
      [|discriminate].
    intros H. injection H as <- <- <-.
    eapply IH; [|exact Er]. eapply update_counters_ok; eauto.
Qed.

(** C7: at every frame boundary, after any number of [update] calls of a
    tracker object on any detections, every live track has
    [0 <= hit_streak <= hits <= age] and [time_since_update >= 0],
    provided the assignment solver answers with distinct, non-negative
    tracker indices. *)
Theorem C7_counters_invariant (max_age min_hits : Z) (thr : A) (count : Z)
    (frames : list (list (row A))) (c : Z) (self : Sort A)
    (rets : list (list (bbox A * Z))) :
  (forall cost mi, solve cost = Ok mi -> distinct_trackers mi) ->
  run_ count (Sort_init max_age min_hits thr) frames = Ok (c, self, rets) ->
  Forall (fun t => 0 <= hit_streak t /\ hit_streak t <= hits t
                   /\ hits t <= age t /\ 0 <= time_since_update t)
         (trackers self).
Proof.
  intros Hsolve H.
  eapply run_counters_ok; [exact Hsolve| |exact H]. constructor.
Qed.

Lemma create_new_arange (ds : list (row A)) :
  forall pre count l,
    create_new count l (pre ++ ds)
               (map Z.of_nat (seq (length pre) (length ds)))
    = Ok (count + Z.of_nat (length ds), l ++ births count ds).
Proof.
  induction ds as [|d ds IH]; intros pre count l.
  - simpl. now rewrite Z.add_0_r, app_nil_r.
  - simpl length. simpl seq. simpl map. simpl create_new.
    rewrite (py_index_of_nat (pre ++ d :: ds) (length pre) (a := d))
      by (rewrite nth_error_app2, Nat.sub_diag by lia; reflexivity).
    simpl bind.
    replace (pre ++ d :: ds) with ((pre ++ [d]) ++ ds)
      by (now rewrite <- app_assoc).
    replace (S (length pre)) with (length (pre ++ [d]))
      by (rewrite length_app; simpl; lia).
    rewrite IH. rewrite <- app_assoc. simpl app.
    f_equal. f_equal. lia.
Qed.

Lemma births_ids (ds : list (row A)) :
  forall count,
    map (fun t => id t) (births count ds)
    = map (fun i => count + i) (arange (length ds)).
Proof.
  induction ds as [|d ds IH]; intros count; [reflexivity|].
  simpl births. simpl map at 1. rewrite IH.
  unfold arange. simpl length. simpl seq. simpl map.
  f_equal; [lia|].
  rewrite <- seq_shift, !map_map. apply map_ext. intros k. lia.
Qed.

Lemma births_emitted (min_hits : Z) (ds : list (row A)) :
  forall count,
    Forall (fun t => emits min_hits 1 t = true) (births count ds).
Proof.
  induction ds as [|d ds IH]; intros count; simpl; constructor; auto.
  unfold emits. simpl.
  destruct (Z.leb_spec min_hits 0), (Z.leb_spec 1 min_hits);
    try reflexivity; lia.
Qed.

Lemma filter_all {X : Type} (p : X -> bool) (l : list X) :
  Forall (fun x => p x = true) l -> filter p l = l.
Proof.
  induction 1 as [|x l Hx _ IH]; simpl; [reflexivity|].
  now rewrite Hx, IH.
Qed.

(** C1 (amended): [Sort.__init__] leaves the class counter alone.  On a
    [Sort] object without tracks yet, whatever the counter holds when a
    frame with [n] detections comes in, be it [count], the tracks born get
    the internal ids [count .. count+n-1] and the counter is left at
    [count+n]; when that frame is the first of the object, the tracks are
    all returned, last first, with the identifiers [count+1 .. count+n]. *)
Theorem C1_fresh_instance_continues_counter (ma mh : Z) (thr : A)
    (fc count : Z) (dets : list (row A)) :
  exists trs self' ret,
    upd_tracks count (MkSort ma mh thr [] fc) dets
    = Ok (count + Z.of_nat (length dets), fc + 1, trs)
    /\ map (fun t => id t) trs
       = map (fun i => count + i) (arange (length dets))
    /\ upd count (Sort_init ma mh thr) dets
       = Ok (count + Z.of_nat (length dets), self', ret)
    /\ map snd ret
       = rev (map (fun i => count + i + 1) (arange (length dets))).
Proof.
  assert (Hall : forall fc',
            upd_tracks count (MkSort ma mh thr [] fc') dets
            = Ok (count + Z.of_nat (length dets), fc' + 1, births count dets)).
  { intros fc'.
    unfold update_tracks, predict_and_prune, associate_detections_to_trackers.
    simpl. unfold arange.
    pose proof (create_new_arange dets [] count []) as H.
    simpl in H. rewrite H. reflexivity. }
  exists (births count dets). eexists. eexists.
  split; [apply Hall|]. split; [apply births_ids|].
  split; [apply (update_unfold _ _ _ (Hall 0))|].
  simpl. rewrite filter_all
    by (apply Forall_rev, births_emitted).
  rewrite map_map. unfold ret_row. simpl snd.
  rewrite map_rev. f_equal.
  rewrite <- (map_map (fun t => id t) (fun i => i + 1)), births_ids.
  rewrite map_map. reflexivity.
Qed.

End Pipeline.

(** *** Exact arithmetic *)

Section Reals.

Local Open Scope R_scope.

Lemma maximum_Rmax (a b : R) : maximum a b = Rmax a b.
Proof.
  unfold maximum, isnan. simpl. unfold Reqb, Rleb, Rmax.
  destruct (Req_dec_T a a) as [_|H]; [|contradiction]. simpl.
  rewrite orb_false_r.
  destruct (Rle_dec b a), (Rle_dec a b); try reflexivity; lra.
Qed.

Lemma minimum_Rmin (a b : R) : minimum a b = Rmin a b.
Proof.
  unfold minimum, isnan. simpl. unfold Reqb, Rleb, Rmin.
  destruct (Req_dec_T a a) as [_|H]; [|contradiction]. simpl.
  rewrite orb_false_r.
  destruct (Rle_dec a b); reflexivity.
Qed.





End Reals.

(** *** The reference solver answers with distinct trackers *)

Section ReferenceSolver.

Context {A : Type} {NA : Num A}.

Lemma NoDup_remove_nat (j : nat) (l : list nat) :
  NoDup l -> NoDup (List.remove Nat.eq_dec j l).
Proof.
  induction 1 as [|x l Hx Hl IH]; simpl; [constructor|].
  destruct (Nat.eq_dec j x); [exact IH|].
  constructor; [|exact IH].
  intros H. apply in_remove in H. tauto.
Qed.

Lemma assignments_cols (rows : list nat) :
  forall cols skip asg,
    NoDup cols -> In asg (assignments rows cols skip) ->
    NoDup (map snd asg) /\ incl (map snd asg) cols.
Proof.
  induction rows as [|i rows IH]; intros cols skip asg Hnd; simpl.
  - intros [<-|[]]. split; [constructor|intros x []].
  - intros H. apply in_app_or in H. destruct H as [H|H].
    + apply in_flat_map in H. destruct H as [j [Hj H]].
      apply in_map_iff in H. destruct H as [asg' [<- H]].
      apply IH in H; [|now apply NoDup_remove_nat].
      destruct H as [Hnd' Hincl]. simpl. split.
      * constructor; [|exact Hnd'].
        intros Hin. apply Hincl in Hin. now apply remove_In in Hin.
      * intros x [<-|Hx]; [exact Hj|].
        apply Hincl in Hx. apply in_remove in Hx. tauto.
    + destruct skip as [|s]; [destruct H|]. now apply IH in H.
Qed.

Lemma fold_left_choose {X : Type} (p : X -> X -> bool) (rest : list X) :
  forall a,
    In (fold_left (fun best c => if p c best then c else best) rest a)
       (a :: rest).
Proof.
  induction rest as [|c rest IH]; intros a; simpl; [now left|].
  destruct (IH (if p c a then c else a)) as [H|H].
  - rewrite <- H. destruct (p c a); auto.
  - auto.
Qed.

Lemma best_assignment_cols (cost : list (list A)) :
  NoDup (map snd (best_assignment cost)).
Proof.
  unfold best_assignment.
  set (all := filter _ _).
  assert (Hall : forall asg, In asg all -> NoDup (map snd asg)).
  { intros asg H. apply filter_In in H. destruct H as [H _].
    eapply assignments_cols in H; [tauto|apply seq_NoDup]. }
  destruct all as [|a rest]; [constructor|].
  apply Hall. apply fold_left_choose.
Qed.

Lemma map_snd_combine {X Y : Type} (l1 : list X) (l2 : list Y) :
  length l1 = length l2 -> map snd (combine l1 l2) = l2.
Proof.
  revert l2. induction l1 as [|x l1 IH]; intros [|y l2]; simpl; intros H;
    try discriminate; auto.
  f_equal. apply IH. congruence.
Qed.

(** Without [lap], [linear_assignment] over the reference solver answers
    with distinct, non-negative tracker indices, whatever the matrix. *)
Lemma ref_linear_assignment_distinct (cost : list (list A)) (mi : list (Z * Z)) :
  linear_assignment None ref_linear_sum_assignment cost = Ok mi ->
  distinct_trackers mi.
Proof.
  unfold linear_assignment, ref_linear_sum_assignment.
  destruct (existsb (existsb isinvalid) cost); simpl; [discriminate|].
  intros H. injection H as <-.
  unfold distinct_trackers.
  rewrite map_snd_combine by (now rewrite !length_map).
  split.
  - rewrite <- (map_map snd Z.of_nat).
    apply Finite.Injective_map_NoDup; [|apply best_assignment_cols].
    intros x y. apply Nat2Z.inj.
  - apply Forall_forall. intros [x y] H. apply in_combine_r in H.
    apply in_map_iff in H. destruct H as [q [<- _]]. simpl. lia.
Qed.

End ReferenceSolver.

(** ** Concrete runs *)

Ltac compute_run := vm_compute; reflexivity.

Example iou_same :
  iou (box 0 0 10 10) (Row 0 0 10 10 0)%float = 1%float.
Proof. reflexivity. Qed.

Example roundtrip_unit :
  convert_x_to_bbox (convert_bbox_to_z d100) = (Bbox 100 100 200 200)%float.
Proof. reflexivity. Qed.

(** Five frames with the same detection: the track is returned with
    identifier 1 in every frame. *)
Example steady_track_confirmation :
  match run_scipy 0 s0 [[d100]; [d100]; [d100]; [d100]; [d100]] with
  | Ok (_, _, rets) => ids rets
  | Raise _ => []
  end = [[1]; [1]; [1]; [1]; [1]].
Proof. compute_run. Qed.

Lemma C3_witness :
  associate_scipy two_dets three_trks thr03 = Ok ([(0, 0)], [1], [1; 2])
  /\ (exists v, entry (iou_batch two_dets three_trks) (0, 0) = Ok v
                /\ fltb v thr03 = false)
  /\ (~ In (1, 2) [(0, 0)] /\ In 1 [1] /\ In 2 [1; 2]).
Proof.
  assert (H : associate_scipy two_dets three_trks thr03
              = Ok ([(0, 0)], [1], [1; 2])) by compute_run.
  destruct (C3_no_match_below_threshold None ref_linear_sum_assignment
              two_dets three_trks thr03 H) as [H1 H2].
  split; [exact H|]. split.
  - apply H1. now left.
  - eapply (H2 [(0, 0); (1, 2)] 1 2).
    + compute_run.
    + right. now left.
    + compute_run.
    + compute_run.
Defined.

Lemma C6_witness :
  associate_scipy two_dets three_trks thr03 = Ok ([(0, 0)], [1], [1; 2])
  /\ Permutation ([0] ++ [1]) (arange 2)
  /\ Permutation ([0] ++ [1; 2]) (arange 3).
Proof.
  assert (H : associate_scipy two_dets three_trks thr03
              = Ok ([(0, 0)], [1], [1; 2])) by compute_run.
  split; [exact H|].
  apply (C6_outputs_partition_indices None ref_linear_sum_assignment
           two_dets three_trks thr03 (matches := [(0, 0)])); [|exact H].
  intros mi Hmi. vm_compute in Hmi. injection Hmi as <-.
  repeat split; simpl; repeat constructor; simpl; intuition lia.
Defined.



Lemma C5_witness :
  exists self' ret,
    update_scipy 1 coasting [] = Ok (1, self', ret)
    /\ map (fun t => time_since_update t) coasting_predicted = [2]
    /\ trackers self' = [].
Proof.
  destruct (C5_removed_iff_older_than_max_age
              ref_predict ref_update None ref_linear_sum_assignment
              1 coasting [] (c := 1) (fc := 3) (trs := coasting_predicted))
    as (self' & ret & Hupd & Htrs).
  - compute_run.
  - exists self', ret. split; [exact Hupd|]. split; [reflexivity|].
    rewrite Htrs. reflexivity.
Defined.

Lemma C7_witness :
  run_scipy 0 s0 five_frames = Ok (3, after_five_frames, rets_five_frames)
  /\ map counters (trackers after_five_frames) = [(2, 0, 0, 0, 0)]
  /\ Forall (fun t => 0 <= hit_streak t /\ hit_streak t <= hits t
                      /\ hits t <= age t /\ 0 <= time_since_update t)
            (trackers after_five_frames).
Proof.
  assert (H : run_scipy 0 s0 five_frames
              = Ok (3, after_five_frames, rets_five_frames))
    by compute_run.
  split; [exact H|]. split; [reflexivity|].
  apply (C7_counters_invariant ref_predict ref_update None
           ref_linear_sum_assignment 1 3 thr03 0 five_frames
           (c := 3) (rets := rets_five_frames)).
  - intros cost mi. apply ref_linear_assignment_distinct.
  - exact H.
Defined.







(** C1: a second [Sort] object constructed after a first one has tracked
    one object gives its first track the internal id 1 and returns it with
    identifier 2. *)
Lemma C1_counterexample :
  exists s1 r1 s2 r2,
    update_scipy 0 (Sort_init 1 3 thr03) [d100] = Ok (1, s1, r1)
    /\ update_scipy 1 (Sort_init 1 3 thr03) [d100] = Ok (2, s2, r2)
    /\ map (fun t => id t) (trackers s2) = [1]
    /\ map snd r2 = [2].
Proof.
  do 4 eexists. split; [compute_run|].
  split; [compute_run|]. split; reflexivity.
Qed.


(** C2: the track born from the wide box predicts a box with infinite
    corners and no NaN.  Its row leaves [trks], the track stays in
    [self.trackers]: the one row left is that of the second track, and the
    match found for it updates the first track. *)
Theorem C2_infinite_box_track_is_kept :
  map row_invalid
      (snd (fst (predict_loop ref_predict 0 (trackers wide_and_small))))
  = [true; false]
  /\ snd (predict_loop ref_predict 0 (trackers wide_and_small)) = []
  /\ (exists trackers2,
        predict_and_prune ref_predict (trackers wide_and_small)
        = Ok (trackers2, [Row 0 0 10 10 0]%float)
        /\ map (fun t => id t) trackers2 = [0; 1])
  /\ (exists self' ret,
        update_scipy 2 wide_and_small [box 0 0 10 10] = Ok (2, self', ret)
        /\ map counters (trackers self') = [(0, 0, 1, 1, 1); (1, 1, 0, 0, 1)]
        /\ map snd ret = [1]).
Proof.
  split; [compute_run|].
  split; [compute_run|].
  split.
  - eexists. split; [compute_run|reflexivity].
  - do 2 eexists. split; [compute_run|]. split; reflexivity.
Qed.

(** ** Further properties *)

(** *** The geometry in exact arithmetic *)

Section GeometryReals.

Local Open Scope R_scope.

Lemma iou_real (a b : row R) :
  iou a b
  = Rmax 0 (Rmin (r2 a) (r2 b) - Rmax (r0 a) (r0 b))
    * Rmax 0 (Rmin (r3 a) (r3 b) - Rmax (r1 a) (r1 b))
    / ((r2 a - r0 a) * (r3 a - r1 a) + (r2 b - r0 b) * (r3 b - r1 b)
       - Rmax 0 (Rmin (r2 a) (r2 b) - Rmax (r0 a) (r0 b))
         * Rmax 0 (Rmin (r3 a) (r3 b) - Rmax (r1 a) (r1 b))).
Proof.
  unfold iou. cbv zeta. rewrite !maximum_Rmax, !minimum_Rmin. reflexivity.
Qed.

(** The overlap of two intervals is no longer than either. *)
Lemma overlap_bounds (a0 a2 b0 b2 : R) :
  a0 < a2 -> b0 < b2 ->
  0 <= Rmax 0 (Rmin a2 b2 - Rmax a0 b0) <= a2 - a0
  /\ Rmax 0 (Rmin a2 b2 - Rmax a0 b0) <= b2 - b0.
Proof.
  intros Ha Hb.
  pose proof (Rmin_l a2 b2). pose proof (Rmin_r a2 b2).
  pose proof (Rmax_l a0 b0). pose proof (Rmax_r a0 b0).
  pose proof (Rmax_l 0 (Rmin a2 b2 - Rmax a0 b0)).
  repeat split; try assumption; apply Rmax_lub; lra.
Qed.

(** X1: the IoU of two boxes of positive width and height lies between 0
    and 1. *)
Theorem X1_iou_in_unit_interval (a b : row R) :
  r0 a < r2 a -> r1 a < r3 a -> r0 b < r2 b -> r1 b < r3 b ->
  0 <= iou a b <= 1.
Proof.
  intros Ha1 Ha2 Hb1 Hb2. rewrite iou_real.
  destruct (overlap_bounds Ha1 Hb1) as [[Hw0 Hwa] Hwb].
  destruct (overlap_bounds Ha2 Hb2) as [[Hh0 Hha] Hhb].
  set (W := Rmax 0 (Rmin (r2 a) (r2 b) - Rmax (r0 a) (r0 b))) in *.
  set (H := Rmax 0 (Rmin (r3 a) (r3 b) - Rmax (r1 a) (r1 b))) in *.
  assert (HA : W * H <= (r2 a - r0 a) * (r3 a - r1 a)) by nra.
  assert (HB : W * H <= (r2 b - r0 b) * (r3 b - r1 b)) by nra.
  assert (HAp : 0 < (r2 a - r0 a) * (r3 a - r1 a)) by nra.
  assert (H0 : 0 <= W * H) by nra.
  set (D := (r2 a - r0 a) * (r3 a - r1 a)
            + (r2 b - r0 b) * (r3 b - r1 b) - W * H).
  assert (HD : 0 < D) by (unfold D; lra).
  split.
  - apply Rmult_le_pos; [exact H0|]. left. now apply Rinv_0_lt_compat.
  - apply (Rmult_le_reg_r D); [exact HD|].
    unfold Rdiv. rewrite Rmult_assoc, Rinv_l by lra. unfold D. lra.
Qed.

(** X2: IoU does not depend on which box is the detection and which the
    tracker. *)
Theorem X2_iou_symmetric (a b : row R) : iou a b = iou b a.
Proof.
  rewrite !iou_real.
  rewrite (Rmin_comm (r2 a)), (Rmax_comm (r0 a)), (Rmin_comm (r3 a)),
    (Rmax_comm (r1 a)).
  f_equal. ring.
Qed.

(** X3: a box of positive width and height has IoU 1 against a box with
    the same corners, whatever the fifth column holds. *)
Theorem X3_iou_same_box (a : row R) (s : R) :
  r0 a < r2 a -> r1 a < r3 a ->
  iou a (Row (r0 a) (r1 a) (r2 a) (r3 a) s) = 1.
Proof.
  intros H1 H2. rewrite iou_real. simpl.
  rewrite (Rmin_left (r2 a) (r2 a)), (Rmin_left (r3 a) (r3 a)) by lra.
  rewrite (Rmax_left (r0 a) (r0 a)), (Rmax_left (r1 a) (r1 a)) by lra.
  rewrite !Rmax_right by lra.
  field. nra.
Qed.

(** X4: two boxes of positive width and height that do not overlap, one
    lying beside, above or below the other, have IoU 0. *)
Theorem X4_iou_disjoint (a b : row R) :
  r0 a < r2 a -> r1 a < r3 a -> r0 b < r2 b -> r1 b < r3 b ->
  r2 a <= r0 b \/ r2 b <= r0 a \/ r3 a <= r1 b \/ r3 b <= r1 a ->
  iou a b = 0.
Proof.
  intros Ha1 Ha2 Hb1 Hb2 Hd. rewrite iou_real.
  assert (Hw : Rmax 0 (Rmin (r2 a) (r2 b) - Rmax (r0 a) (r0 b))
               * Rmax 0 (Rmin (r3 a) (r3 b) - Rmax (r1 a) (r1 b)) = 0).
  { pose proof (Rmin_l (r2 a) (r2 b)). pose proof (Rmin_r (r2 a) (r2 b)).
    pose proof (Rmax_l (r0 a) (r0 b)). pose proof (Rmax_r (r0 a) (r0 b)).
    pose proof (Rmin_l (r3 a) (r3 b)). pose proof (Rmin_r (r3 a) (r3 b)).
    pose proof (Rmax_l (r1 a) (r1 b)). pose proof (Rmax_r (r1 a) (r1 b)).
    destruct Hd as [Hd|[Hd|[Hd|Hd]]].
    - rewrite (Rmax_left 0 (Rmin (r2 a) (r2 b) - Rmax (r0 a) (r0 b))) by lra.
      ring.
    - rewrite (Rmax_left 0 (Rmin (r2 a) (r2 b) - Rmax (r0 a) (r0 b))) by lra.
      ring.
    - rewrite (Rmax_left 0 (Rmin (r3 a) (r3 b) - Rmax (r1 a) (r1 b))) by lra.
      ring.
    - rewrite (Rmax_left 0 (Rmin (r3 a) (r3 b) - Rmax (r1 a) (r1 b))) by lra.
      ring. }
  rewrite Hw. unfold Rdiv. ring.
Qed.

Lemma sqrt_pos_prod (s r : R) : 0 < s -> 0 < r -> 0 < R_sqrt.sqrt (s * r).
Proof. intros Hs Hr. apply sqrt_lt_R0. nra. Qed.

(** X5: for a state of positive area and aspect ratio, [convert_bbox_to_z]
    applied to the row made of [convert_x_to_bbox] gives centre, area and
    ratio back: the two conversions are inverse in this direction too. *)
Theorem X5_z_bbox_roundtrip (x : list R) :
  0 < at_ x 2 -> 0 < at_ x 3 ->
  convert_bbox_to_z (trk_row (convert_x_to_bbox x))
  = [at_ x 0; at_ x 1; at_ x 2; at_ x 3].
Proof.
  intros Hs Hr.
  pose proof (sqrt_pos_prod Hs Hr) as Hw.
  assert (Hww : R_sqrt.sqrt (at_ x 2 * at_ x 3)
                * R_sqrt.sqrt (at_ x 2 * at_ x 3)
                = at_ x 2 * at_ x 3) by (apply sqrt_sqrt; nra).
  unfold convert_bbox_to_z, trk_row, convert_x_to_bbox. cbv zeta. simpl.
  change (@two R RealNum) with 2.
  set (w := R_sqrt.sqrt (at_ x 2 * at_ x 3)) in *.
  repeat f_equal.
  - field.
  - field. lra.
  - field. lra.
  - apply (Rmult_eq_reg_r (at_ x 2)); [|lra].
    transitivity (w * w); [field; lra|]. rewrite Hww. ring.
Qed.

End GeometryReals.

(** *** The tracker object *)

(** X6: whatever the detection and the counter, a new tracker starts, on
    binary64, with [R = diag(1,1,10,10)],
    [P = diag(10,10,10,10,10^4,10^4,10^4)],
    [Q = diag(1,1,1,1,0.01,0.01,0.01*0.01)], the transition and observation
    matrices of the constant-velocity model, zero velocities, all counters
    at zero, the counter as id, and leaves the counter incremented. *)
Theorem X6_initial_tracker (count : Z) (bbox : row float) :
  let t := fst (KalmanBoxTracker_init count bbox) in
  kf_R (kf t) = diag [1; 1; 10; 10]%float
  /\ kf_P (kf t) = diag [10; 10; 10; 10; 10000; 10000; 10000]%float
  /\ kf_Q (kf t)
     = diag [1; 1; 1; 1; 1 / 100; 1 / 100; 1 / 100 * (1 / 100)]%float
  /\ kf_F (kf t) = F_const /\ kf_H (kf t) = H_const
  /\ kf_x (kf t) = convert_bbox_to_z bbox ++ [0; 0; 0]%float
  /\ (id t, time_since_update t, hits t, hit_streak t, age t)
     = (count, 0, 0, 0, 0)
  /\ snd (KalmanBoxTracker_init count bbox) = count + 1.
Proof.
  cbv zeta. repeat split; vm_compute; reflexivity.
Qed.

Section TrackerReals.

Local Open Scope R_scope.

Lemma get_state_init (count : Z) (b : row R) :
  r0 b < r2 b -> r1 b < r3 b ->
  get_state (fst (KalmanBoxTracker_init count b))
  = Bbox (r0 b) (r1 b) (r2 b) (r3 b).
Proof.
  intros Hw Hh.
  set (w := r2 b - r0 b). set (h := r3 b - r1 b).
  assert (Hw0 : 0 < w) by (unfold w; lra).
  assert (Hh0 : 0 < h) by (unfold h; lra).
  assert (Hs : R_sqrt.sqrt (w * h * (w / h)) = w).
  { replace (w * h * (w / h)) with (w * w) by (field; lra).
    apply sqrt_square. lra. }
  unfold get_state, KalmanBoxTracker_init, convert_x_to_bbox,
    convert_bbox_to_z, at_.
  cbv zeta. simpl. fold w. fold h. rewrite Hs.
  change (@two R RealNum) with 2.
  replace (w * h / w) with h by (field; lra).
  f_equal; unfold w, h; field.
Qed.

(** X7: in exact arithmetic a tracker just constructed from a box of
    positive width and height reports that box as its state. *)
Theorem X7_new_tracker_state (count : Z) (b : row R) :
  r0 b < r2 b -> r1 b < r3 b ->
  get_state (fst (KalmanBoxTracker_init count b))
  = Bbox (r0 b) (r1 b) (r2 b) (r3 b).
Proof. apply get_state_init. Qed.

(** X9: with a filter whose [predict] moves the state by its transition
    matrix, a tracker of the constant-velocity model whose area is
    positive still has a positive area after [predict()]: when the area
    velocity would take it to zero or below, the velocity is zeroed
    first. *)
Theorem X9_predicted_area_positive
    (kf_predict : KalmanFilter R -> KalmanFilter R)
    (t : KalmanBoxTracker R) (x0 x1 x2 x3 x4 x5 x6 : R) :
  (forall k, kf_x (kf_predict k) = mat_vec (kf_F k) (kf_x k)) ->
  kf_F (kf t) = F_const ->
  kf_x (kf t) = [x0; x1; x2; x3; x4; x5; x6] ->
  0 < x2 ->
  0 < at_ (kf_x (kf (fst (KalmanBoxTracker_predict kf_predict t)))) 2
  /\ at_ (kf_x (kf (fst (KalmanBoxTracker_predict kf_predict t)))) 2
     = (if Rle_dec (x6 + x2) 0 then x2 else x2 + x6).
Proof.
  intros Hp HF Hx Hpos.
  assert (E : at_ (kf_x (kf (fst (KalmanBoxTracker_predict kf_predict t)))) 2
              = (if Rle_dec (x6 + x2) 0 then x2 else x2 + x6)).
  { unfold KalmanBoxTracker_predict. cbv zeta. simpl fst. simpl kf.
    rewrite Hp, Hx. unfold at_. simpl nth.
    cbn [fleb RealNum fadd fmul]. unfold Rleb.
    change (@zero R RealNum) with 0.
    destruct (Rle_dec (x6 + x2) 0) as [Hle|Hgt].
    - unfold set_x. simpl kf_F. simpl kf_x. rewrite HF.
      unfold mat_vec, F_const, of_ints, dotp. simpl.
      change (@zero R RealNum) with 0. ring.
    - rewrite HF, Hx.
      unfold mat_vec, F_const, of_ints, dotp. simpl.
      change (@zero R RealNum) with 0. ring. }
  split; [|exact E]. rewrite E.
  destruct (Rle_dec (x6 + x2) 0); lra.
Qed.

End TrackerReals.

Section TrackerCounters.

Context {A : Type} {NA : Num A}.
Variable kf_predict : KalmanFilter A -> KalmanFilter A.
Variable kf_update : KalmanFilter A -> list A -> result (KalmanFilter A).

Local Abbreviation predict := (KalmanBoxTracker_predict kf_predict).

(** X8: two [predict()] in a row, with no [update()] between them, break
    the streak of a tracker (its [hit_streak] is 0 and
    [time_since_update] has grown by 2, hits unchanged), while a
    [predict()] that follows an [update()] keeps the streak the update
    has just lengthened and leaves [time_since_update] at 1. *)
Theorem X8_streak_breaks_after_a_missed_frame (t t' : KalmanBoxTracker A)
    (d : row A) :
  0 <= time_since_update t ->
  KalmanBoxTracker_update kf_update t d = Ok t' ->
  (let t2 := fst (predict (fst (predict t))) in
   hit_streak t2 = 0 /\ time_since_update t2 = time_since_update t + 2
   /\ hits t2 = hits t /\ age t2 = age t + 2)
  /\ (let t3 := fst (predict t') in
      hit_streak t3 = hit_streak t + 1 /\ time_since_update t3 = 1
      /\ hits t3 = hits t + 1 /\ age t3 = age t + 1).
Proof.
  intros Ht Hu. split.
  - simpl.
    replace (time_since_update t + 1 >? 0) with true
      by (symmetry; apply Z.gtb_lt; lia).
    repeat split; lia.
  - unfold KalmanBoxTracker_update in Hu.
    destruct (kf_update (kf t) (convert_bbox_to_z d)); simpl in Hu;
      [|discriminate].
    injection Hu as <-. simpl. repeat split; lia.
Qed.

End TrackerCounters.

(** *** The strict comparisons of binary64 and of the reals *)

Lemma SFcompare_antisym (a b : spec_float) :
  SFcompare b a = option_map CompOpp (SFcompare a b).
Proof.
  destruct a as [sa|sa| |sa ma ea], b as [sb|sb| |sb mb eb]; simpl;
    try reflexivity;
    try (destruct sa; reflexivity); try (destruct sb; reflexivity);
    try (destruct sa, sb; reflexivity).
  destruct sa, sb; try reflexivity;
    rewrite (Z.compare_antisym ea eb);
    change (Pos.compare_cont Eq mb ma) with (Pos.compare mb ma);
    change (Pos.compare_cont Eq ma mb) with (Pos.compare ma mb);
    rewrite (Pos.compare_antisym ma mb);
    destruct (Z.compare ea eb); simpl; try reflexivity;
    destruct (Pos.compare ma mb); reflexivity.
Qed.

Lemma float_ltb_asym (x y : float) :
  PrimFloat.ltb x y = true -> PrimFloat.ltb y x = false.
Proof.
  rewrite !FloatAxioms.ltb_spec. unfold SFltb.
  rewrite (SFcompare_antisym (Prim2SF x) (Prim2SF y)).
  destruct (SFcompare (Prim2SF x) (Prim2SF y)) as [[ | | ]|]; simpl;
    try discriminate; reflexivity.
Qed.

#[export] Instance Float64Order : NumOrder float := {
  fltb_asym := float_ltb_asym
}.

Lemma Rltb_asym (x y : R) : Rltb x y = true -> Rltb y x = false.
Proof.
  unfold Rltb. destruct (Rlt_dec x y); [|discriminate].
  intros _. destruct (Rlt_dec y x); [lra|reflexivity].
Qed.

#[export] Instance RealOrder : NumOrder R := {
  fltb_asym := Rltb_asym
}.

(** *** More on the association step *)

Lemma filter_true {X : Type} (l : list X) : filter (fun _ => true) l = l.
Proof. induction l as [|x l IH]; simpl; [reflexivity|now rewrite IH]. Qed.

Lemma filter_none {X : Type} (p : X -> bool) (l : list X) :
  Forall (fun x => p x = false) l -> filter p l = [].
Proof.
  induction 1 as [|x l Hx _ IH]; simpl; [reflexivity|]. now rewrite Hx.
Qed.

Lemma nth_error_map_inv {X Y : Type} (g : X -> Y) (l : list X) (k : nat) (y : Y) :
  nth_error (map g l) k = Some y ->
  exists x, nth_error l k = Some x /\ g x = y.
Proof.
  rewrite nth_error_map. destruct (nth_error l k) as [x|]; simpl;
    [|discriminate].
  intros H. injection H as <-. now exists x.
Qed.

(** An entry within the bounds of a matrix can be read. *)
Lemma entry_in_range {X : Type} (M : list (list X)) (n m : nat) (p : Z * Z) :
  length M = n -> Forall (fun r => length r = m) M ->
  0 <= fst p < Z.of_nat n -> 0 <= snd p < Z.of_nat m ->
  exists v, entry M p = Ok v.
Proof.
  intros Hn Hm Hi Hj. unfold entry.
  destruct (nth_error M (Z.to_nat (fst p))) as [r|] eqn:Er.
  - replace (fst p) with (Z.of_nat (Z.to_nat (fst p))) by lia.
    rewrite (py_index_of_nat _ _ Er). simpl.
    rewrite Forall_forall in Hm.
    pose proof (Hm r (nth_error_In _ _ Er)) as Hr.
    destruct (nth_error r (Z.to_nat (snd p))) as [v|] eqn:Ev.
    + exists v. replace (snd p) with (Z.of_nat (Z.to_nat (snd p))) by lia.
      now apply py_index_of_nat.
    + apply nth_error_None in Ev. lia.
  - apply nth_error_None in Er. lia.
Qed.

Section MoreAssociation.

Context {A : Type} {NA : Num A}.
Variable lap : option (list (list A) -> result (list Z * list Z)).
Variable linear_sum_assignment : list (list A) -> result (list Z * list Z).

Local Abbreviation associate :=
  (associate_detections_to_trackers lap linear_sum_assignment).
Local Abbreviation solve := (linear_assignment lap linear_sum_assignment).
Local Abbreviation candidates := (candidate_pairs lap linear_sum_assignment).

(** X10: without trackers or without detections the association step
    does not consult the solver: there are no matches, and every
    detection and every tracker is returned as unmatched. *)
Theorem X10_association_with_an_empty_side (D T : list (row A)) (thr : A) :
  T = [] \/ D = [] ->
  associate D T thr = Ok ([], arange (length D), arange (length T)).
Proof.
  intros H. unfold associate_detections_to_trackers.
  destruct T as [|t T']; [reflexivity|].
  destruct H as [H | ->]; [discriminate|].
  simpl. unfold candidate_pairs. simpl.
  now rewrite filter_true.
Qed.

(** Every position read off the thresholded matrix is an entry of the IoU
    matrix above the threshold. *)
Lemma where_entries (M : list (list A)) (thr : A) (p : Z * Z) :
  In p (where_ (map (map (fun v => fltb thr v)) M)) ->
  exists v, entry M p = Ok v /\ fltb thr v = true.
Proof.
  destruct p as [i j]. intros H. apply in_where in H.
  destruct H as (ki & kj & r & -> & -> & Hr & Hv).
  apply nth_error_map_inv in Hr. destruct Hr as [r' [Hr' <-]].
  apply nth_error_map_inv in Hv. destruct Hv as [v [Hv Hlt]].
  exists v. split; [|exact Hlt].
  unfold entry. simpl. rewrite (py_index_of_nat _ _ Hr'). simpl.
  now apply py_index_of_nat.
Qed.

(** X12: when the solver answers with an assignment, the matches
    returned pair each detection with one tracker at most and each
    tracker with one detection at most, and their indices lie within the
    two inputs. *)
Theorem X12_matches_one_to_one (D T : list (row A)) (thr : A)
    (matches : list (Z * Z)) (ud ut : list Z) :
  (forall mi, solve (map (map fneg) (iou_batch D T)) = Ok mi ->
              is_assignment (length D) (length T) mi) ->
  associate D T thr = Ok (matches, ud, ut) ->
  NoDup (map fst matches) /\ NoDup (map snd matches)
  /\ in_range (length D) (length T) matches.
Proof.
  intros Hsolve H. apply associate_inv in H.
  destruct H as [(_ & -> & _)|(_ & mi & Hc & -> & _)].
  - repeat split; constructor.
  - apply candidates_assignment in Hc; [|exact Hsolve].
    destruct Hc as (Hf & Hs & Hr). repeat split.
    + now apply NoDup_map_filter.
    + now apply NoDup_map_filter.
    + apply Forall_forall. intros p Hp. apply filter_In in Hp.
      rewrite Forall_forall in Hr. now apply Hr.
Qed.

(** X13: the association step raises only through the solver: when the
    solver answers the matrix of this call with a non-empty list of pairs
    within its bounds, the step returns. *)
Theorem X13_association_returns (D T : list (row A)) (thr : A)
    (mi : list (Z * Z)) :
  solve (map (map fneg) (iou_batch D T)) = Ok mi ->
  mi <> [] ->
  in_range (length D) (length T) mi ->
  exists matches ud ut, associate D T thr = Ok (matches, ud, ut).
Proof.
  intros Hs Hne Hr. unfold associate_detections_to_trackers.
  destruct (Nat.eqb (length T) 0); [now eexists; eexists; eexists|].
  assert (Hc : exists mi',
             candidates (iou_batch D T) (length D) (length T) thr = Ok mi'
             /\ Forall (fun m => exists v, entry (iou_batch D T) m = Ok v) mi').
  { unfold candidate_pairs.
    destruct (0 <? Z.of_nat (Nat.min (length D) (length T))).
    - match goal with
      | |- context [if ?c then _ else _] => destruct c
      end.
      + eexists. split; [reflexivity|].
        apply Forall_forall. intros p Hp. apply where_entries in Hp.
        destruct Hp as [v [Hv _]]. now exists v.
      + rewrite Hs. simpl. destruct mi as [|m mi']; [contradiction|].
        eexists. split; [reflexivity|].
        eapply Forall_impl; [|exact Hr]. intros p [Hi Hj].
        eapply entry_in_range; eauto using length_iou_batch, width_iou_batch.
    - eexists. split; [reflexivity|constructor]. }
  destruct Hc as [mi' [Hc HF]]. rewrite Hc. simpl bind.
  rewrite (@filter_low_iou_total A NA (iou_batch D T) thr _ HF).
  now eexists; eexists; eexists.
Qed.

Context {NO : NumOrder A}.

(** X11: when the thresholded matrix has one entry at most in each row
    and in each column (and one somewhere), the solver is not consulted
    and no pair is demoted: the matches are exactly the positions of the
    entries above the threshold, and the unmatched lists are the
    detections and the trackers that appear in none of them. *)
Theorem X11_fast_path_matches (D T : list (row A)) (thr : A) :
  let a := map (map (fun v => fltb thr v)) (iou_batch D T) in
  amax (row_sums a) = 1 -> amax (col_sums (length T) a) = 1 ->
  associate D T thr
  = Ok (where_ a,
        filter (fun d => negb (zmem d (map fst (where_ a)))) (arange (length D)),
        filter (fun t => negb (zmem t (map snd (where_ a)))) (arange (length T))).
Proof.
  intros a Hr Hc.
  assert (Hn : length D <> 0%nat).
  { intros H0. destruct D; [|discriminate]. discriminate Hr. }
  assert (Hm : length T <> 0%nat).
  { intros H0. rewrite H0 in Hc. discriminate Hc. }
  unfold associate_detections_to_trackers.
  destruct (Nat.eqb_spec (length T) 0) as [H0|_]; [contradiction|].
  unfold candidate_pairs. fold a.
  replace (0 <? Z.of_nat (Nat.min (length D) (length T))) with true
    by (symmetry; apply Z.ltb_lt; lia).
  rewrite Hr, Hc. simpl andb. cbv iota. simpl bind.
  assert (HF : Forall (fun m => exists v, entry (iou_batch D T) m = Ok v)
                      (where_ a)).
  { apply Forall_forall. intros p Hp. apply where_entries in Hp.
    destruct Hp as [v [Hv _]]. now exists v. }
  assert (Hlow : Forall (fun m => low (iou_batch D T) thr m = false) (where_ a)).
  { apply Forall_forall. intros p Hp. apply where_entries in Hp.
    destruct Hp as [v [Hv Hlt]]. unfold low. rewrite Hv.
    now apply fltb_asym. }
  rewrite (@filter_low_iou_total A NA (iou_batch D T) thr _ HF).
  rewrite (filter_none _ Hlow). simpl map. rewrite !app_nil_r. simpl app.
  rewrite filter_all; [reflexivity|].
  eapply Forall_impl; [|exact Hlow]. intros p Hp. simpl. now rewrite Hp.
Qed.

End MoreAssociation.

Section LapWrapper.

Context {A : Type} {NA : Num A}.

Lemma lap_pairs (y : list Z) (x : list Z) :
  forall s,
    (forall k c, nth_error x k = Some c -> 0 <= c ->
                 nth_error y (Z.to_nat c) = Some (Z.of_nat (s + k))) ->
    mapM (fun i => yi <- py_index y i ;; Ok (yi, i))
         (filter (fun i => 0 <=? i) x)
    = Ok (filter (fun p => 0 <=? snd p)
                 (combine (map Z.of_nat (seq s (length x))) x)).
Proof.
  induction x as [|c x IH]; intros s H; [reflexivity|].
  assert (IHs : mapM (fun i => yi <- py_index y i ;; Ok (yi, i))
                     (filter (fun i => 0 <=? i) x)
                = Ok (filter (fun p => 0 <=? snd p)
                             (combine (map Z.of_nat (seq (S s) (length x))) x))).
  { apply IH. intros k c' Hk Hc'.
    rewrite (H (S k) c' Hk Hc'). f_equal. f_equal. lia. }
  simpl. destruct (0 <=? c) eqn:Hc.
  - apply Z.leb_le in Hc. simpl.
    pose proof (H 0%nat c eq_refl Hc) as Hy. rewrite Nat.add_0_r in Hy.
    replace c with (Z.of_nat (Z.to_nat c)) at 1 by lia.
    rewrite (py_index_of_nat _ _ Hy). simpl. now rewrite IHs.
  - exact IHs.
Qed.

(** X14: with [lap], when the two arrays answered by [lapjv] agree (the
    column [x[r]] of an assigned row [r] has [r] as its row in [y]),
    [linear_assignment] returns the pairs (row, column) of the assigned
    rows, in the order of the rows; the rows marked [-1] are left out. *)
Theorem X14_lap_pairs_rows_with_columns
    (lapjv : list (list A) -> result (list Z * list Z))
    (linear_sum_assignment : list (list A) -> result (list Z * list Z))
    (cost : list (list A)) (x y : list Z) :
  lapjv cost = Ok (x, y) ->
  (forall r c, nth_error x r = Some c -> 0 <= c ->
               nth_error y (Z.to_nat c) = Some (Z.of_nat r)) ->
  linear_assignment (Some lapjv) linear_sum_assignment cost
  = Ok (filter (fun p => 0 <=? snd p) (enumerate x)).
Proof.
  intros Hl Hxy. unfold linear_assignment. rewrite Hl. simpl bind.
  apply (lap_pairs y x 0). exact Hxy.
Qed.

End LapWrapper.

(** *** More on the per-frame pipeline *)

Lemma length_filter_map_le {X Y : Type} (f : X -> Y) (p : Y -> bool)
    (q : X -> bool) (l : list X) :
  (forall x, p (f x) = true -> q x = true) ->
  (length (filter p (map f l)) <= length (filter q l))%nat.
Proof.
  intros H. induction l as [|x l IH]; simpl; [lia|].
  destruct (p (f x)) eqn:E.
  - rewrite (H x E). simpl. lia.
  - destruct (q x); simpl; lia.
Qed.

Lemma map_set_nth {X Y : Type} (f : X -> Y) (k : nat) (a b : X) (l : list X) :
  nth_error l k = Some b -> f a = f b ->
  map f (set_nth k a l) = map f l.
Proof.
  revert k. induction l as [|c l IH]; intros [|k]; simpl; try discriminate.
  - intros H E. injection H as ->. now rewrite E.
  - intros H E. now rewrite (IH k H E).
Qed.

Section MorePipeline.

Context {A : Type} {NA : Num A}.
Variable kf_predict : KalmanFilter A -> KalmanFilter A.
Variable kf_update : KalmanFilter A -> list A -> result (KalmanFilter A).
Variable lap : option (list (list A) -> result (list Z * list Z)).
Variable linear_sum_assignment : list (list A) -> result (list Z * list Z).

Local Abbreviation associate :=
  (associate_detections_to_trackers lap linear_sum_assignment).
Local Abbreviation solve := (linear_assignment lap linear_sum_assignment).
Local Abbreviation predict := (KalmanBoxTracker_predict kf_predict).
Local Abbreviation prune := (predict_and_prune kf_predict).
Local Abbreviation upd_matched := (update_matched kf_update).
Local Abbreviation upd_tracks :=
  (update_tracks kf_predict kf_update lap linear_sum_assignment).
Local Abbreviation upd :=
  (update kf_predict kf_update lap linear_sum_assignment).
Local Abbreviation run_ :=
  (run kf_predict kf_update lap linear_sum_assignment).

Lemma nan_row_invalid (pos : bbox A) :
  any_isnan pos = true -> row_invalid (trk_row pos) = true.
Proof.
  unfold any_isnan, row_invalid, trk_row, isinvalid. simpl.
  destruct (isnan (b0 pos)), (isnan (b1 pos)), (isnan (b2 pos)),
    (isnan (b3 pos)); simpl; try discriminate; intros _;
    rewrite ?orb_true_r; reflexivity.
Qed.

(** X15: the first part of [update] never raises.  It keeps, in order,
    the trackers whose predicted box has no NaN, each after its
    [predict()]; the rows it keeps are those without NaN or infinite
    entry, and there are never more rows than trackers, so that a tracker
    index of the association step always finds a tracker. *)
Theorem X15_prediction_step (l : list (KalmanBoxTracker A)) :
  exists trackers2 trks,
    prune l = Ok (trackers2, trks)
    /\ trackers2
       = map fst (filter (fun p => negb (any_isnan (snd p))) (map predict l))
    /\ trks
       = filter (fun r => negb (row_invalid r))
                (map (fun p => trk_row (snd p)) (map predict l))
    /\ (length trks <= length trackers2)%nat.
Proof.
  eexists. eexists. split; [apply predict_and_prune_spec|].
  split; [reflexivity|]. split; [reflexivity|].
  rewrite length_map. apply length_filter_map_le.
  intros p Hp. apply negb_true_iff in Hp. apply negb_true_iff.
  destruct (any_isnan (snd p)) eqn:E; [|reflexivity].
  now rewrite (nan_row_invalid _ E) in Hp.
Qed.

(** X16: when no predicted box has an infinite entry without having a
    NaN too, the trackers and the rows left by the first part of
    [update] are aligned: there are as many of each, and row [i] is the
    box predicted by tracker [i]. *)
Theorem X16_rows_aligned_with_trackers (l : list (KalmanBoxTracker A)) :
  (forall trk, In trk l ->
     row_invalid (trk_row (snd (predict trk))) = any_isnan (snd (predict trk))) ->
  exists ps,
    prune l = Ok (map fst ps, map (fun p => trk_row (snd p)) ps)
    /\ (forall p, In p ps <-> exists trk, In trk l /\ p = predict trk
                                         /\ any_isnan (snd p) = false).
Proof.
  intros Hinf. destruct (prune_aligned kf_predict l Hinf) as [ps [Hp ->]].
  eexists. split; [exact Hp|].
  intros p. rewrite filter_In, in_map_iff, negb_true_iff. split.
  - intros [[trk [<- Hin]] Hn]. now exists trk.
  - intros [trk [Hin [-> Hn]]]. split; [now exists trk|exact Hn].
Qed.

Lemma prune_ids (c0 count : Z) (l l' : list (KalmanBoxTracker A))
    (trks : list (row A)) :
  ids_ok c0 count l -> prune l = Ok (l', trks) -> ids_ok c0 count l'.
Proof.
  intros (Hc & Hnd & Hr) H. rewrite predict_and_prune_spec in H.
  injection H as <- _. split; [exact Hc|]. split.
  - rewrite map_map. apply NoDup_map_filter.
    rewrite map_map. simpl. exact Hnd.
  - apply Forall_forall. intros t Ht. apply in_map_iff in Ht.
    destruct Ht as [p [<- Hp]]. apply filter_In in Hp. destruct Hp as [Hp _].
    apply in_map_iff in Hp. destruct Hp as [t0 [<- Ht0]]. simpl.
    rewrite Forall_forall in Hr. now apply Hr.
Qed.

Lemma update_matched_ids (dets : list (row A)) (matched : list (Z * Z)) :
  forall l l',
    upd_matched l dets matched = Ok l' ->
    map (fun t => id t) l' = map (fun t => id t) l.
Proof.
  induction matched as [|m rest IH]; intros l l'; simpl.
  - intros H. now injection H as <-.
  - destruct (py_index l (snd m)) as [trk|e] eqn:Ei; simpl; [|discriminate].
    destruct (py_index dets (fst m)) as [d|e]; simpl; [|discriminate].
    unfold KalmanBoxTracker_update.
    destruct (kf_update (kf trk) (convert_bbox_to_z d)) as [k|e]; simpl;
      [|discriminate].
    apply py_index_inv in Ei. destruct Ei as [j [Ej Enth]].
    unfold py_setitem. rewrite Ej. simpl.
    intros H. rewrite (IH _ _ H).
    now apply map_set_nth with trk.
Qed.

Lemma create_new_ids (dets : list (row A)) (ud : list Z) :
  forall count l c l',
    create_new count l dets ud = Ok (c, l') ->
    c = count + Z.of_nat (length ud)
    /\ exists new,
         l' = l ++ new
         /\ map (fun t => id t) new
            = map (fun i => count + i) (arange (length ud))
         /\ Forall (fun t => time_since_update t = 0) new.
Proof.
  induction ud as [|i ud IH]; intros count l c l'; simpl.
  - intros H. injection H as <- <-. split; [lia|].
    exists []. now rewrite app_nil_r.
  - destruct (py_index dets i) as [d|e]; simpl; [|discriminate].
    intros H. apply IH in H. destruct H as [-> [new [-> [Hids Ht]]]].
    split; [lia|].
    eexists. rewrite <- app_assoc. split; [reflexivity|].
    simpl. split; [|constructor; auto].
    unfold arange. simpl. f_equal; [lia|].
    rewrite Hids. unfold arange.
    rewrite <- seq_shift, !map_map. apply map_ext. intros k. lia.
Qed.

Lemma update_tracks_ids (c0 count : Z) (self : Sort A) (dets : list (row A))
    (c fc : Z) (trs : list (KalmanBoxTracker A)) :
  ids_ok c0 count (trackers self) ->
  upd_tracks count self dets = Ok (c, fc, trs) ->
  count <= c /\ ids_ok c0 c trs.
Proof.
  intros Hok H. apply update_tracks_inv in H.
  destruct H as (trackers2 & trks & matched & ud & ut & trackers3
                 & Hp & _ & Hu & Hc & _).
  pose proof (prune_ids Hok Hp) as (Hc0 & Hnd & Hr).
  apply update_matched_ids in Hu.
  apply create_new_ids in Hc. destruct Hc as [-> [new [-> [Hids _]]]].
  assert (Hr3 : Forall (fun t => c0 <= id t < count) trackers3).
  { apply Forall_forall. intros t Ht.
    assert (Hin : In (id t) (map (fun t => id t) trackers2))
      by (rewrite <- Hu; now apply (in_map (fun t => id t))).
    apply in_map_iff in Hin. destruct Hin as [t2 [<- Ht2]].
    rewrite Forall_forall in Hr. now apply Hr. }
  assert (Hnew : forall t, In t new ->
                   count <= id t < count + Z.of_nat (length ud)).
  { intros t Ht. apply (in_map (fun t => id t)) in Ht. rewrite Hids in Ht.
    apply in_map_iff in Ht. destruct Ht as [i [<- Hi]].
    apply in_arange in Hi. lia. }
  split; [lia|]. split; [lia|]. split.
  - rewrite map_app. apply NoDup_app.
    + now rewrite Hu.
    + rewrite Hids. apply Finite.Injective_map_NoDup; [|apply NoDup_arange].
      intros x y. lia.
    + intros i Hi Hi'. apply in_map_iff in Hi, Hi'.
      destruct Hi as [t [<- Ht]], Hi' as [t' [E Ht']].
      rewrite Forall_forall in Hr3. specialize (Hr3 t Ht).
      specialize (Hnew t' Ht'). lia.
  - apply Forall_app. split.
    + eapply Forall_impl; [|exact Hr3]. simpl. intros t Ht. lia.
    + apply Forall_forall. intros t Ht. specialize (Hnew t Ht). lia.
Qed.

Lemma ret_ids (c0 c : Z) (mh fc : Z) (trs : list (KalmanBoxTracker A)) :
  ids_ok c0 c trs ->
  ret_ids_ok c0 c (map ret_row (filter (emits mh fc) (rev trs))).
Proof.
  intros (_ & Hnd & Hr). split.
  - rewrite map_map. unfold ret_row. simpl snd.
    apply NoDup_map_filter.
    rewrite <- (map_map (fun t => id t) (fun i => i + 1)).
    apply Finite.Injective_map_NoDup; [intros x y; lia|].
    rewrite map_rev. now apply NoDup_rev.
  - apply Forall_forall. intros r Hin. apply in_map_iff in Hin.
    destruct Hin as [t [<- Ht]]. apply filter_In in Ht. destruct Ht as [Ht _].
    apply in_rev in Ht. rewrite Forall_forall in Hr. specialize (Hr t Ht).
    simpl. lia.
Qed.

Lemma update_ids (c0 count : Z) (self self' : Sort A) (dets : list (row A))
    (c : Z) (ret : list (bbox A * Z)) :
  ids_ok c0 count (trackers self) ->
  upd count self dets = Ok (c, self', ret) ->
  count <= c /\ ids_ok c0 c (trackers self') /\ ret_ids_ok c0 c ret.
Proof.
  intros Hok H.
  destruct (upd_tracks count self dets) as [[[c' fc] trs]|e] eqn:E.
  - erewrite update_unfold in H by exact E. injection H as <- <- <-.
    assert (HE : count <= c' /\ ids_ok c0 c' trs)
      by (eapply update_tracks_ids; eauto).
    destruct HE as [Hle Htrs].
    split; [exact Hle|]. split; [|now apply ret_ids].
    destruct Htrs as (Hc & Hnd & Hr). simpl. split; [exact Hc|]. split.
    + now apply NoDup_map_filter.
    + apply Forall_forall. intros t Ht. apply filter_In in Ht.
      rewrite Forall_forall in Hr. apply Hr. tauto.
  - unfold update in H. rewrite E in H. discriminate.
Qed.

Lemma run_ids (frames : list (list (row A))) :
  forall c0 count self c self' rets,
    ids_ok c0 count (trackers self) ->
    run_ count self frames = Ok (c, self', rets) ->
    count <= c /\ ids_ok c0 c (trackers self')
    /\ Forall (ret_ids_ok c0 c) rets.
Proof.
  induction frames as [|dets rest IH];
    intros c0 count self c self' rets Hok; simpl.
  - intros H. injection H as <- <- <-. split; [lia|]. split; [exact Hok|].
    constructor.
  - destruct (upd count self dets) as [[[c1 s1] ret]|e] eqn:E; simpl bind;
      [|discriminate].
    destruct (run_ c1 s1 rest) as [[[c2 s2] rets']|e] eqn:Er; simpl bind;
      [|discriminate].
    intros H. injection H as <- <- <-.
    assert (HE : count <= c1 /\ ids_ok c0 c1 (trackers s1)
                 /\ ret_ids_ok c0 c1 ret)
      by (eapply update_ids; eauto).
    destruct HE as (Hle1 & Hok1 & Hret).
    destruct (IH _ _ _ _ _ _ Hok1 Er) as (Hle2 & Hok2 & Hrets).
    split; [lia|]. split; [exact Hok2|]. constructor; [|exact Hrets].
    destruct Hret as [Hnd Hr]. split; [exact Hnd|].
    eapply Forall_impl; [|exact Hr]. simpl. intros r Hr'. lia.
Qed.

(** X17: after any run of frames on a new [Sort] object, started with
    the class counter at [count], the counter has not decreased and the
    live tracks have pairwise distinct ids, all handed out during the run
    (from [count] on, below the counter). *)
Theorem X17_live_ids_distinct (ma mh : Z) (thr : A) (count : Z)
    (frames : list (list (row A))) (c : Z) (self : Sort A)
    (rets : list (list (bbox A * Z))) :
  run_ count (Sort_init ma mh thr) frames = Ok (c, self, rets) ->
  count <= c
  /\ NoDup (map (fun t => id t) (trackers self))
  /\ Forall (fun t => count <= id t < c) (trackers self).
Proof.
  intros H.
  destruct (@run_ids frames count count (Sort_init ma mh thr) c self rets)
    as (Hle & (_ & Hnd & Hr) & _); [|exact H|auto].
  repeat split; simpl; try constructor. lia.
Qed.

(** X18: in any run of frames on a new [Sort] object, started with the
    class counter at [count], the identifiers returned for one frame are
    pairwise distinct, and each is the id plus one of a track created
    during the run: above [count], at most the counter at the end. *)
Theorem X18_returned_ids_distinct (ma mh : Z) (thr : A) (count : Z)
    (frames : list (list (row A))) (c : Z) (self : Sort A)
    (rets : list (list (bbox A * Z))) :
  run_ count (Sort_init ma mh thr) frames = Ok (c, self, rets) ->
  Forall (fun ret => NoDup (map snd ret)
                     /\ Forall (fun r => count < snd r <= c) ret) rets.
Proof.
  intros H.
  destruct (@run_ids frames count count (Sort_init ma mh thr) c self rets)
    as (_ & _ & Hrets); [|exact H|exact Hrets].
  repeat split; simpl; try constructor. lia.
Qed.

Lemma associate_no_detections (T : list (row A)) (thr : A) :
  associate [] T thr = Ok ([], [], arange (length T)).
Proof.
  unfold associate_detections_to_trackers.
  destruct T as [|t T']; [reflexivity|].
  simpl. unfold candidate_pairs. simpl. now rewrite filter_true.
Qed.

(** A frame without detections: nothing is matched or created, the live
    tracks are the predicted ones without NaN that are not too old. *)
Lemma update_empty_frame (count : Z) (self : Sort A) :
  Forall (fun t => 0 <= time_since_update t) (trackers self) ->
  upd count self []
  = Ok (count,
        {| max_age := max_age self; min_hits := min_hits self;
           iou_threshold := iou_threshold self;
           trackers :=
             filter (fun t => (time_since_update t <=? max_age self)%Z)
                    (map fst (filter (fun p => negb (any_isnan (snd p)))
                                     (map predict (trackers self))));
           frame_count := frame_count self + 1 |},
        []).
Proof.
  intros Ht.
  set (trackers2 := map fst (filter (fun p => negb (any_isnan (snd p)))
                                    (map predict (trackers self)))).
  assert (Hall : upd_tracks count self []
                 = Ok (count, frame_count self + 1, trackers2)).
  { unfold update_tracks. rewrite predict_and_prune_spec. simpl bind.
    rewrite associate_no_detections. reflexivity. }
  erewrite update_unfold by exact Hall.
  assert (H1 : Forall (fun t => 1 <= time_since_update t) trackers2).
  { eapply prune_Forall; [|exact Ht|apply predict_and_prune_spec].
    intros t. apply predict_time. }
  f_equal. f_equal; [f_equal|].
  - f_equal. apply filter_ext. intros t. unfold dead.
    now rewrite Z.leb_antisym.
  - rewrite filter_none; [reflexivity|].
    apply Forall_rev. eapply Forall_impl; [|exact H1].
    intros t Ht1. cbv beta in Ht1. unfold emits.
    replace (time_since_update t <? 1) with false; [reflexivity|].
    symmetry. apply Z.ltb_ge. exact Ht1.
Qed.

(** X19: a frame without detections is accepted whatever the solver:
    [update] returns no row, creates no track and leaves the counter; it
    counts the frame and keeps, in order, the tracks whose predicted box
    has no NaN and whose [time_since_update], one more than before, is at
    most [max_age]. *)
Theorem X19_frame_without_detections (count : Z) (self : Sort A) :
  Forall (fun t => 0 <= time_since_update t) (trackers self) ->
  exists self',
    upd count self [] = Ok (count, self', [])
    /\ frame_count self' = frame_count self + 1
    /\ trackers self'
       = filter (fun t => (time_since_update t <=? max_age self)%Z)
                (map fst (filter (fun p => negb (any_isnan (snd p)))
                                 (map predict (trackers self))))
    /\ Forall (fun t => 1 <= time_since_update t <= max_age self)
              (trackers self').
Proof.
  intros Ht. eexists. split; [now apply update_empty_frame|].
  split; [reflexivity|]. split; [reflexivity|]. simpl.
  apply Forall_forall. intros t Hin. apply filter_In in Hin.
  destruct Hin as [Hin Hle]. apply Z.leb_le in Hle. split; [|exact Hle].
  assert (H1 : Forall (fun t => 1 <= time_since_update t)
                 (map fst (filter (fun p => negb (any_isnan (snd p)))
                                  (map predict (trackers self))))).
  { eapply prune_Forall; [|exact Ht|apply predict_and_prune_spec].
    intros t0. apply predict_time. }
  rewrite Forall_forall in H1. now apply H1.
Qed.

Lemma candidates_rows (D T : list (row A)) (thr : A) (mi : list (Z * Z)) :
  (forall cost mi', solve cost = Ok mi' ->
     NoDup (map fst mi')
     /\ Forall (fun p => 0 <= fst p < Z.of_nat (length cost)) mi') ->
  candidate_pairs lap linear_sum_assignment (iou_batch D T) (length D)
                  (length T) thr = Ok mi ->
  NoDup (map fst mi) /\ Forall (fun p => 0 <= fst p < Z.of_nat (length D)) mi.
Proof.
  intros Hsolve. unfold candidate_pairs.
  destruct (0 <? Z.of_nat (Nat.min (length D) (length T))).
  - match goal with
    | |- context [if ?c then _ else _] => destruct c eqn:Hfast
    end.
    + intros H. injection H as <-.
      apply andb_true_iff in Hfast. destruct Hfast as [Hr _].
      apply Z.eqb_eq in Hr. split; [now apply NoDup_where_rows|].
      apply Forall_forall. intros [i j] H. apply in_where in H.
      destruct H as (ki & kj & r & -> & -> & Hki & _). simpl.
      assert (ki < length D)%nat.
      { rewrite <- (length_iou_batch D T), <- (length_map
          (map (fun v => fltb thr v)) (iou_batch D T)).
        apply nth_error_Some. congruence. }
      lia.
    + destruct (solve (map (map fneg) (iou_batch D T))) as [mi'|e] eqn:E;
        simpl; [|discriminate].
      destruct mi' as [|m mi']; [discriminate|].
      intros H. injection H as <-. apply Hsolve in E.
      now rewrite length_map, length_iou_batch in E.
  - intros H. injection H as <-. split; simpl; constructor.
Qed.

(** Every detection is either matched or unmatched, once. *)
Lemma associate_count (D T : list (row A)) (thr : A)
    (matches : list (Z * Z)) (ud ut : list Z) :
  (forall cost mi, solve cost = Ok mi ->
     NoDup (map fst mi)
     /\ Forall (fun p => 0 <= fst p < Z.of_nat (length cost)) mi) ->
  associate D T thr = Ok (matches, ud, ut) ->
  (length matches + length ud = length D)%nat.
Proof.
  intros Hsolve H. apply associate_inv in H.
  destruct H as [(_ & -> & -> & _)|(_ & mi & Hc & -> & -> & _)].
  - simpl. unfold arange. now rewrite length_map, length_seq.
  - apply candidates_rows in Hc; [|exact Hsolve]. destruct Hc as [Hnd Hr].
    pose proof (@Permutation_indices _ fst (low (iou_batch D T) thr) mi
                  (length D) Hnd) as HP.
    assert (Hin : forall x, In x (map fst mi) -> In x (arange (length D))).
    { intros x Hx. apply in_map_iff in Hx. destruct Hx as [m [<- Hm]].
      apply in_arange. rewrite Forall_forall in Hr. now apply Hr. }
    apply Permutation_length in HP; [|exact Hin].
    rewrite length_app, length_map in HP.
    unfold arange in HP at 2. now rewrite length_map, length_seq in HP.
Qed.

Lemma filter_set_nth_le {X : Type} (p : X -> bool) (k : nat) (a : X)
    (l : list X) :
  (length (filter p (set_nth k a l)) <= S (length (filter p l)))%nat.
Proof.
  revert k. induction l as [|b l IH]; intros [|k]; simpl; try lia.
  - destruct (p a), (p b); simpl; lia.
  - specialize (IH k). destruct (p b); simpl; lia.
Qed.

Lemma update_matched_fresh (p : KalmanBoxTracker A -> bool)
    (dets : list (row A)) (matched : list (Z * Z)) :
  forall l l',
    upd_matched l dets matched = Ok l' ->
    (length (filter p l') <= length (filter p l) + length matched)%nat.
Proof.
  induction matched as [|m rest IH]; intros l l'; simpl.
  - intros H. injection H as <-. lia.
  - destruct (py_index l (snd m)) as [trk|e]; simpl; [|discriminate].
    destruct (py_index dets (fst m)) as [d|e]; simpl; [|discriminate].
    destruct (KalmanBoxTracker_update kf_update trk d) as [trk'|e]; simpl;
      [|discriminate].
    unfold py_setitem.
    destruct (py_norm (length l) (snd m)) as [j|e]; simpl; [|discriminate].
    intros H. apply IH in H.
    pose proof (filter_set_nth_le p j trk' l). lia.
Qed.

Lemma length_filter_le {X : Type} (p : X -> bool) (l : list X) :
  (length (filter p l) <= length l)%nat.
Proof. induction l as [|x l IH]; simpl; [lia|]. destruct (p x); simpl; lia. Qed.

Lemma length_filter_and {X : Type} (p q : X -> bool) (l : list X) :
  (length (filter (fun x => p x && q x) l) <= length (filter p l))%nat.
Proof.
  induction l as [|x l IH]; simpl; [lia|].
  destruct (p x), (q x); simpl; lia.
Qed.

(** X20: when the solver answers with distinct detection indices within
    the matrix, [update] never returns more rows than the frame has
    detections: a returned track was either updated with a detection of
    this frame or born from one, each detection serving once. *)
Theorem X20_no_more_rows_than_detections (count : Z) (self self' : Sort A)
    (dets : list (row A)) (c : Z) (ret : list (bbox A * Z)) :
  (forall cost mi, solve cost = Ok mi ->
     NoDup (map fst mi)
     /\ Forall (fun p => 0 <= fst p < Z.of_nat (length cost)) mi) ->
  Forall (fun t => 0 <= time_since_update t) (trackers self) ->
  upd count self dets = Ok (c, self', ret) ->
  (length ret <= length dets)%nat.
Proof.
  intros Hsolve Ht H.
  destruct (upd_tracks count self dets) as [[[c' fc] trs]|e] eqn:E;
    [|unfold update in H; rewrite E in H; discriminate].
  erewrite update_unfold in H by exact E. injection H as _ _ <-.
  apply update_tracks_inv in E.
  destruct E as (trackers2 & trks & matched & ud & ut & trackers3
                 & Hp & Ha & Hu & Hc & _).
  set (fresh := fun t : KalmanBoxTracker A => time_since_update t <? 1).
  assert (H2 : filter fresh trackers2 = []).
  { apply filter_none.
    assert (H1 : Forall (fun t => 1 <= time_since_update t) trackers2).
    { eapply prune_Forall; [|exact Ht|exact Hp]. intros t. apply predict_time. }
    eapply Forall_impl; [|exact H1]. intros t Ht1. cbv beta in Ht1.
    unfold fresh. apply Z.ltb_ge. exact Ht1. }
  pose proof (update_matched_fresh fresh _ _ _ Hu) as H3.
  rewrite H2 in H3. simpl in H3.
  apply create_new_ids in Hc. destruct Hc as [_ [new [-> [Hids _]]]].
  assert (Hnew : length new = length ud).
  { apply (f_equal (@length Z)) in Hids. unfold arange in Hids.
    now rewrite !length_map, length_seq in Hids. }
  pose proof (associate_count _ _ _ Hsolve Ha) as Hcount.
  rewrite length_map.
  transitivity (length (filter fresh (rev (trackers3 ++ new)))).
  - apply length_filter_and.
  - rewrite rev_app_distr, filter_app, length_app.
    pose proof (length_filter_le fresh (rev new)).
    rewrite length_rev in *.
    assert (length (filter fresh (rev trackers3))
            = length (filter fresh trackers3)).
    { clear. induction trackers3 as [|t l IH]; [reflexivity|].
      simpl rev. rewrite filter_app, length_app, IH. simpl.
      destruct (fresh t); simpl; lia. }
    lia.
Qed.

Lemma update_params (count : Z) (self self' : Sort A) (dets : list (row A))
    (c : Z) (ret : list (bbox A * Z)) :
  upd count self dets = Ok (c, self', ret) ->
  frame_count self' = frame_count self + 1
  /\ max_age self' = max_age self /\ min_hits self' = min_hits self
  /\ iou_threshold self' = iou_threshold self.
Proof.
  intros H.
  destruct (upd_tracks count self dets) as [[[c' fc] trs]|e] eqn:E;
    [|unfold update in H; rewrite E in H; discriminate].
  erewrite update_unfold in H by exact E. injection H as _ <- _.
  apply update_tracks_inv in E.
  destruct E as (? & ? & ? & ? & ? & ? & _ & _ & _ & _ & ->).
  simpl. auto.
Qed.

Lemma run_params (frames : list (list (row A))) :
  forall count self c self' rets,
    run_ count self frames = Ok (c, self', rets) ->
    frame_count self' = frame_count self + Z.of_nat (length frames)
    /\ length rets = length frames
    /\ max_age self' = max_age self /\ min_hits self' = min_hits self
    /\ iou_threshold self' = iou_threshold self.
Proof.
  induction frames as [|dets rest IH]; intros count self c self' rets; simpl.
  - intros H. injection H as <- <- <-. repeat split; lia.
  - destruct (upd count self dets) as [[[c1 s1] ret]|e] eqn:E; simpl bind;
      [|discriminate].
    destruct (run_ c1 s1 rest) as [[[c2 s2] rets']|e] eqn:Er; simpl bind;
      [|discriminate].
    intros H. injection H as <- <- <-.
    apply update_params in E. destruct E as (E1 & E2 & E3 & E4).
    apply IH in Er. destruct Er as (F1 & F2 & F3 & F4 & F5).
    simpl length. repeat split; try congruence; lia.
Qed.

(** X21: after a run on a new [Sort] object, [frame_count] is the number
    of [update] calls made, one list of rows was returned per call, and
    the three parameters are those given to the constructor. *)
Theorem X21_frame_count_counts_calls (ma mh : Z) (thr : A) (count : Z)
    (frames : list (list (row A))) (c : Z) (self : Sort A)
    (rets : list (list (bbox A * Z))) :
  run_ count (Sort_init ma mh thr) frames = Ok (c, self, rets) ->
  frame_count self = Z.of_nat (length frames)
  /\ length rets = length frames
  /\ max_age self = ma /\ min_hits self = mh /\ iou_threshold self = thr.
Proof.
  intros H. apply run_params in H. simpl in H. exact H.
Qed.

Lemma run_empty_frames (k : nat) :
  forall count self j,
    0 <= j ->
    Forall (fun t => j <= time_since_update t) (trackers self) ->
    exists self',
      run_ count self (repeat [] k) = Ok (count, self', repeat [] k)
      /\ max_age self' = max_age self
      /\ Forall (fun t => j + Z.of_nat k <= time_since_update t)
                (trackers self')
      /\ (Forall (fun t => time_since_update t <= max_age self)
                 (trackers self) \/ k <> 0%nat ->
          Forall (fun t => time_since_update t <= max_age self)
                 (trackers self')).
Proof.
  induction k as [|k IH]; intros count self j Hj Ht.
  - exists self. simpl. repeat split; auto.
    + eapply Forall_impl; [|exact Ht]. simpl. intros t Ht'. lia.
    + intros [H|H]; [exact H|contradiction].
  - assert (Ht0 : Forall (fun t => 0 <= time_since_update t) (trackers self)).
    { eapply Forall_impl; [|exact Ht]. simpl. intros t Ht'. lia. }
    simpl repeat. simpl run. rewrite (update_empty_frame count self Ht0).
    simpl bind.
    set (s1 := {| max_age := max_age self; min_hits := min_hits self;
                  iou_threshold := iou_threshold self;
                  trackers := _; frame_count := frame_count self + 1 |}).
    assert (H1 : Forall (fun t => j + 1 <= time_since_update t) (trackers s1)).
    { simpl. apply Forall_forall. intros t Hin. apply filter_In in Hin.
      destruct Hin as [Hin _].
      assert (H1 : Forall (fun t => j + 1 <= time_since_update t)
                     (map fst (filter (fun p => negb (any_isnan (snd p)))
                                      (map predict (trackers self))))).
      { eapply prune_Forall with (P := fun t => j <= time_since_update t);
          [|exact Ht|apply predict_and_prune_spec].
        intros t0 Ht0'. simpl. lia. }
      rewrite Forall_forall in H1. now apply H1. }
    assert (H2 : Forall (fun t => time_since_update t <= max_age s1)
                        (trackers s1)).
    { simpl. apply Forall_forall. intros t Hin. apply filter_In in Hin.
      destruct Hin as [_ Hle]. now apply Z.leb_le. }
    destruct (IH count s1 (j + 1)) as (self' & Hrun & Hma & Hlow & Hup);
      [lia|exact H1|].
    exists self'. rewrite Hrun. simpl bind.
    split; [reflexivity|]. split; [exact Hma|]. split.
    + eapply Forall_impl; [|exact Hlow]. simpl. intros t Ht'. lia.
    + intros _. apply Hup. left. exact H2.
Qed.

(** X22: a [Sort] object that gets more than [max_age] frames without
    detections in a row has no live track left afterwards; none of these
    frames returns a row or moves the counter. *)
Theorem X22_tracks_die_after_max_age_misses (count : Z) (self : Sort A)
    (k : nat) :
  Forall (fun t => 0 <= time_since_update t) (trackers self) ->
  (0 < k)%nat -> max_age self < Z.of_nat k ->
  exists self',
    run_ count self (repeat [] k) = Ok (count, self', repeat [] k)
    /\ trackers self' = [].
Proof.
  intros Ht Hk Hma.
  destruct (run_empty_frames k count self (j := 0)) as
    (self' & Hrun & _ & Hlow & Hup); [lia|exact Ht|].
  exists self'. split; [exact Hrun|].
  assert (Hup' : Forall (fun t => time_since_update t <= max_age self)
                        (trackers self'))
    by (apply Hup; right; lia).
  destruct (trackers self') as [|t l]; [reflexivity|].
  inversion Hlow; subst. inversion Hup'; subst. lia.
Qed.

End MorePipeline.

(** *** The history of a track *)

Section History.

Context {A : Type} {NA : Num A}.
Variable kf_predict : KalmanFilter A -> KalmanFilter A.
Variable kf_update : KalmanFilter A -> list A -> result (KalmanFilter A).
Variable lap : option (list (list A) -> result (list Z * list Z)).
Variable linear_sum_assignment : list (list A) -> result (list Z * list Z).

Local Abbreviation predict := (KalmanBoxTracker_predict kf_predict).
Local Abbreviation prune := (predict_and_prune kf_predict).
Local Abbreviation upd_matched := (update_matched kf_update).
Local Abbreviation upd_tracks :=
  (update_tracks kf_predict kf_update lap linear_sum_assignment).
Local Abbreviation upd :=
  (update kf_predict kf_update lap linear_sum_assignment).
Local Abbreviation run_ :=
  (run kf_predict kf_update lap linear_sum_assignment).

Lemma predict_history (t : KalmanBoxTracker A) :
  history_ok t -> history_ok (fst (predict t)).
Proof.
  unfold history_ok. simpl. rewrite length_app. simpl. lia.
Qed.

Lemma update_history (t t' : KalmanBoxTracker A) (d : row A) :
  KalmanBoxTracker_update kf_update t d = Ok t' -> history_ok t'.
Proof.
  unfold KalmanBoxTracker_update.
  destruct (kf_update (kf t) (convert_bbox_to_z d)); simpl; [|discriminate].
  intros E. injection E as <-. reflexivity.
Qed.

Lemma update_matched_history (dets : list (row A)) (matched : list (Z * Z)) :
  forall l l',
    Forall history_ok l -> upd_matched l dets matched = Ok l' ->
    Forall history_ok l'.
Proof.
  induction matched as [|m rest IH]; intros l l' Hl; simpl.
  - intros H. now injection H as <-.
  - destruct (py_index l (snd m)) as [trk|e]; simpl; [|discriminate].
    destruct (py_index dets (fst m)) as [d|e]; simpl; [|discriminate].
    destruct (KalmanBoxTracker_update kf_update trk d) as [trk'|e] eqn:Eu;
      simpl; [|discriminate].
    unfold py_setitem.
    destruct (py_norm (length l) (snd m)) as [k|e]; simpl; [|discriminate].
    apply IH. apply Forall_set_nth; [exact Hl|].
    eapply update_history; exact Eu.
Qed.

Lemma create_new_history (dets : list (row A)) (ud : list Z) :
  forall count l c l',
    Forall history_ok l -> create_new count l dets ud = Ok (c, l') ->
    Forall history_ok l'.
Proof.
  induction ud as [|i ud IH]; intros count l c l' Hl; simpl.
  - intros H. now injection H as _ <-.
  - destruct (py_index dets i) as [d|e]; simpl; [|discriminate].
    apply IH. apply Forall_app. split; [exact Hl|].
    constructor; [reflexivity|constructor].
Qed.

Lemma update_history_ok (count : Z) (self self' : Sort A)
    (dets : list (row A)) (c : Z) (ret : list (bbox A * Z)) :
  Forall history_ok (trackers self) ->
  upd count self dets = Ok (c, self', ret) ->
  max_age self' = max_age self
  /\ Forall (fun t => history_ok t /\ time_since_update t <= max_age self)
            (trackers self').
Proof.
  intros Hok H.
  destruct (upd_tracks count self dets) as [[[c' fc] trs]|e] eqn:E;
    [|unfold update in H; rewrite E in H; discriminate].
  erewrite update_unfold in H by exact E. injection H as _ <- _.
  split; [reflexivity|]. simpl.
  apply update_tracks_inv in E.
  destruct E as (trackers2 & trks & matched & ud & ut & trackers3
                 & Hp & _ & Hu & Hc & _).
  assert (H2 : Forall history_ok trackers2)
    by (eapply prune_Forall; [apply predict_history|exact Hok|exact Hp]).
  assert (H3 : Forall history_ok trackers3)
    by (eapply update_matched_history; eauto).
  assert (H4 : Forall history_ok trs)
    by (eapply create_new_history; eauto).
  apply Forall_forall. intros t Ht. apply filter_In in Ht.
  destruct Ht as [Hin Halive]. split.
  - rewrite Forall_forall in H4. now apply H4.
  - unfold dead in Halive. apply negb_true_iff, Z.ltb_ge in Halive.
    exact Halive.
Qed.

Lemma run_history_ok (frames : list (list (row A))) :
  forall count self c self' rets,
    Forall (fun t => history_ok t /\ time_since_update t <= max_age self)
           (trackers self) ->
    run_ count self frames = Ok (c, self', rets) ->
    max_age self' = max_age self
    /\ Forall (fun t => history_ok t /\ time_since_update t <= max_age self)
              (trackers self').
Proof.
  induction frames as [|dets rest IH]; intros count self c self' rets Hok;
    simpl.
  - intros H. injection H as _ <- _. split; [reflexivity|exact Hok].
  - destruct (upd count self dets) as [[[c1 s1] ret]|e] eqn:E; simpl bind;
      [|discriminate].
    destruct (run_ c1 s1 rest) as [[[c2 s2] rets']|e] eqn:Er; simpl bind;
      [|discriminate].
    intros H. injection H as _ <- _.
    apply update_history_ok in E;
      [|eapply Forall_impl; [|exact Hok]; intros t Ht; apply Ht].
    destruct E as [Ema E]. rewrite <- Ema in E.
    apply IH in Er; [|exact E]. destruct Er as [Ema' Er].
    rewrite Ema in Ema', Er. split; [exact Ema'|exact Er].
Qed.

(** X24: at every frame boundary the [history] of a live track holds
    exactly one box for each frame since its last update (or its birth),
    which are [max_age] at most: the list never grows beyond [max_age]
    entries, whatever the filter and the solver return. *)
Theorem X24_history_bounded_by_max_age (ma mh : Z) (thr : A) (count : Z)
    (frames : list (list (row A))) (c : Z) (self : Sort A)
    (rets : list (list (bbox A * Z))) :
  run_ count (Sort_init ma mh thr) frames = Ok (c, self, rets) ->
  Forall (fun t => Z.of_nat (length (history t)) = time_since_update t
                   /\ time_since_update t <= ma)
         (trackers self).
Proof.
  intros H. apply run_history_ok in H; [|constructor].
  destruct H as [_ H]. exact H.
Qed.

End History.

(** *** The first frame *)

Section FirstFrame.

Variable kf_predict : KalmanFilter R -> KalmanFilter R.
Variable kf_update : KalmanFilter R -> list R -> result (KalmanFilter R).
Variable lap : option (list (list R) -> result (list Z * list Z)).
Variable linear_sum_assignment : list (list R) -> result (list Z * list Z).

Lemma births_rows (dets : list (row R)) :
  forall count,
    Forall (fun d => (r0 d < r2 d)%R /\ (r1 d < r3 d)%R) dets ->
    map ret_row (births count dets)
    = combine (map (fun d => Bbox (r0 d) (r1 d) (r2 d) (r3 d)) dets)
              (map (fun i => count + i + 1) (arange (length dets))).
Proof.
  induction dets as [|d dets IH]; intros count Hd; [reflexivity|].
  inversion Hd as [|? ? [Hw Hh] Hrest]; subst.
  cbn [births map]. rewrite (IH (count + 1) Hrest).
  unfold ret_row at 1. rewrite (@get_state_init count d Hw Hh).
  unfold arange. cbn [length seq map combine].
  f_equal; [f_equal; simpl; lia|].
  f_equal. rewrite <- seq_shift, !map_map. apply map_ext. intros k. lia.
Qed.

Lemma births_alive (ma : Z) (dets : list (row R)) :
  forall count,
    filter (fun t => negb (dead ma t)) (births count dets)
    = if ma <? 0 then [] else births count dets.
Proof.
  induction dets as [|d dets IH]; intros count.
  - simpl. now destruct (ma <? 0).
  - simpl births. simpl filter. rewrite IH. unfold dead. simpl.
    now destruct (ma <? 0).
Qed.

(** X23: in exact arithmetic, the first [update] of a [Sort] object gives
    every detection of positive width and height back: the rows returned
    are the boxes of the detections, last detection first, each with the
    identifier its position gives it above the class counter; the tracks
    stay unless [max_age] is negative.  Neither the filter nor the solver
    is called. *)
Theorem X23_first_frame_returns_the_detections (ma mh : Z) (thr : R)
    (count : Z) (dets : list (row R)) :
  Forall (fun d => (r0 d < r2 d)%R /\ (r1 d < r3 d)%R) dets ->
  exists self',
    update kf_predict kf_update lap linear_sum_assignment count
           (Sort_init ma mh thr) dets
    = Ok (count + Z.of_nat (length dets), self',
          rev (combine (map (fun d => Bbox (r0 d) (r1 d) (r2 d) (r3 d)) dets)
                       (map (fun i => count + i + 1) (arange (length dets)))))
    /\ trackers self' = (if ma <? 0 then [] else births count dets)
    /\ frame_count self' = 1.
Proof.
  intros Hd.
  assert (Hall : update_tracks kf_predict kf_update lap linear_sum_assignment
                   count (Sort_init ma mh thr) dets
                 = Ok (count + Z.of_nat (length dets), 1, births count dets)).
  { unfold update_tracks, predict_and_prune, associate_detections_to_trackers.
    simpl. unfold arange.
    pose proof (create_new_arange dets [] count []) as H.
    simpl in H. rewrite H. reflexivity. }
  eexists. split; [|split].
  - erewrite update_unfold by exact Hall. f_equal. f_equal.
    simpl min_hits.
    rewrite filter_all by (apply Forall_rev, births_emitted).
    rewrite map_rev. f_equal. now apply births_rows.
  - simpl. apply births_alive.
  - reflexivity.
Qed.

End FirstFrame.

(** *** The reference solver returns distinct rows *)

Section ReferenceSolverRows.

Context {A : Type} {NA : Num A}.

Lemma assignments_rows (rows : list nat) :
  forall cols skip asg,
    NoDup rows -> In asg (assignments rows cols skip) ->
    NoDup (map fst asg) /\ incl (map fst asg) rows.
Proof.
  induction rows as [|i rows IH]; intros cols skip asg Hnd; simpl.
  - intros [<-|[]]. split; [constructor|intros x []].
  - inversion Hnd as [|? ? Hi Hrows]; subst.
    intros H. apply in_app_or in H. destruct H as [H|H].
    + apply in_flat_map in H. destruct H as [j [_ H]].
      apply in_map_iff in H. destruct H as [asg' [<- H]].
      apply IH in H; [|exact Hrows]. destruct H as [Hnd' Hincl].
      simpl. split.
      * constructor; [|exact Hnd']. intros Hin. apply Hi. now apply Hincl.
      * intros x [<-|Hx]; [now left|right; now apply Hincl].
    + destruct skip as [|s]; [destruct H|].
      apply IH in H; [|exact Hrows]. destruct H as [Hnd' Hincl].
      split; [exact Hnd'|]. intros x Hx. right. now apply Hincl.
Qed.

Lemma best_assignment_rows (cost : list (list A)) :
  NoDup (map fst (best_assignment cost))
  /\ incl (map fst (best_assignment cost)) (seq 0 (length cost)).
Proof.
  unfold best_assignment.
  set (all := filter _ _).
  assert (Hall : forall asg, In asg all ->
                   NoDup (map fst asg)
                   /\ incl (map fst asg) (seq 0 (length cost))).
  { intros asg H. apply filter_In in H. destruct H as [H _].
    eapply assignments_rows in H; [exact H|apply seq_NoDup]. }
  destruct all as [|a rest]; [split; [constructor|intros x []]|].
  apply Hall. apply fold_left_choose.
Qed.

(** Without [lap], [linear_assignment] over the reference solver answers
    with distinct detection indices within the matrix. *)
Lemma ref_linear_assignment_rows (cost : list (list A)) (mi : list (Z * Z)) :
  linear_assignment None ref_linear_sum_assignment cost = Ok mi ->
  NoDup (map fst mi)
  /\ Forall (fun p => 0 <= fst p < Z.of_nat (length cost)) mi.
Proof.
  unfold linear_assignment, ref_linear_sum_assignment.
  destruct (existsb (existsb isinvalid) cost); simpl; [discriminate|].
  intros H. injection H as <-.
  destruct (best_assignment_rows cost) as [Hnd Hincl].
  split.
  - rewrite map_fst_combine by (now rewrite !length_map).
    rewrite <- (map_map fst Z.of_nat).
    apply Finite.Injective_map_NoDup; [|exact Hnd].
    intros x y. apply Nat2Z.inj.
  - apply Forall_forall. intros [x y] H. apply in_combine_l in H.
    apply in_map_iff in H. destruct H as [q [<- Hq]]. simpl.
    assert (Hin : In (fst q) (seq 0 (length cost)))
      by (apply Hincl; now apply in_map).
    apply in_seq in Hin. lia.
Qed.

End ReferenceSolverRows.

(** *** Instances of the further properties *)

Lemma X1_witness :
  (0 <= iou (Row 0 0 10 10 1) (Row 5 5 15 15 0) <= 1)%R.
Proof.
  apply (X1_iou_in_unit_interval (Row 0 0 10 10 1)%R (Row 5 5 15 15 0)%R);
    simpl; lra.
Defined.

Lemma X3_witness :
  iou (Row 0 0 10 10 1)%R (Row 0 0 10 10 0)%R = 1%R.
Proof.
  apply (X3_iou_same_box (Row 0 0 10 10 1)%R 0%R); simpl; lra.
Defined.

Lemma X4_witness :
  iou (Row 0 0 10 10 1)%R (Row 20 0 30 10 0)%R = 0%R.
Proof.
  apply (X4_iou_disjoint (Row 0 0 10 10 1)%R (Row 20 0 30 10 0)%R).
  - simpl; lra.
  - simpl; lra.
  - simpl; lra.
  - simpl; lra.
  - left. simpl. lra.
Defined.

Lemma X5_witness :
  convert_bbox_to_z
    (trk_row (convert_x_to_bbox [150; 150; 10000; 1; 0; 0; 0]%R))
  = [150; 150; 10000; 1]%R.
Proof.
  apply (X5_z_bbox_roundtrip [150; 150; 10000; 1; 0; 0; 0]%R);
    unfold at_; simpl; lra.
Defined.

Lemma X7_witness :
  get_state (fst (KalmanBoxTracker_init 0 (Row 100 100 200 200 1)%R))
  = (Bbox 100 100 200 200)%R.
Proof.
  apply (X7_new_tracker_state 0 (Row 100 100 200 200 1)%R); simpl; lra.
Defined.

Lemma X8_witness :
  exists t',
    KalmanBoxTracker_update ref_update new_track d100 = Ok t'
    /\ (let t2 := fst (KalmanBoxTracker_predict ref_predict
                         (fst (KalmanBoxTracker_predict ref_predict new_track))) in
        hit_streak t2 = 0 /\ time_since_update t2 = 0 + 2
        /\ hits t2 = 0 /\ age t2 = 0 + 2)
    /\ (let t3 := fst (KalmanBoxTracker_predict ref_predict t') in
        hit_streak t3 = 0 + 1 /\ time_since_update t3 = 1
        /\ hits t3 = 0 + 1 /\ age t3 = 0 + 1).
Proof.
  destruct (KalmanBoxTracker_update ref_update new_track d100) as [t'|e] eqn:E;
    [|vm_compute in E; discriminate].
  exists t'. split; [reflexivity|].
  apply (@X8_streak_breaks_after_a_missed_frame float _ ref_predict ref_update
           new_track t' d100); [simpl; lia|exact E].
Defined.

Lemma X9_witness :
  (0 < at_ (kf_x (kf (fst (KalmanBoxTracker_predict ref_predict shrinking)))) 2
   /\ at_ (kf_x (kf (fst (KalmanBoxTracker_predict ref_predict shrinking)))) 2
      = (if Rle_dec (-5 + 1) 0 then 1 else 1 + -5))%R.
Proof.
  apply (@X9_predicted_area_positive ref_predict shrinking
           0%R 0%R 1%R 1%R 0%R 0%R (-5)%R).
  - intros k. reflexivity.
  - reflexivity.
  - reflexivity.
  - lra.
Defined.

Lemma X10_witness :
  associate_scipy two_dets [] thr03 = Ok ([], arange 2, arange 0).
Proof.
  apply (@X10_association_with_an_empty_side float _ None
           ref_linear_sum_assignment two_dets [] thr03).
  now left.
Defined.

Lemma X11_witness :
  associate_detections_to_trackers None (fun _ => Raise ValueError)
    two_dets two_trks thr03
  = Ok ([(0, 0); (1, 1)], [], []).
Proof.
  pose proof (@X11_fast_path_matches float _ None (fun _ => Raise ValueError)
                Float64Order two_dets two_trks thr03) as H.
  cbv zeta in H. rewrite H; compute_run.
Defined.

Lemma X12_witness :
  exists matches ud ut,
    associate_scipy two_dets three_trks thr03 = Ok (matches, ud, ut)
    /\ NoDup (map fst matches) /\ NoDup (map snd matches)
    /\ in_range 2 3 matches.
Proof.
  assert (H : associate_scipy two_dets three_trks thr03
              = Ok ([(0, 0)], [1], [1; 2])) by compute_run.
  exists [(0, 0)], [1], [1; 2]. split; [exact H|].
  apply (@X12_matches_one_to_one float _ None ref_linear_sum_assignment
           two_dets three_trks thr03 [(0, 0)] [1] [1; 2]); [|exact H].
  intros mi Hmi. vm_compute in Hmi. injection Hmi as <-.
  repeat split; simpl; repeat constructor; simpl; intuition lia.
Defined.

Lemma X13_witness :
  linear_assignment None ref_linear_sum_assignment cost_2x3
  = Ok [(0, 0); (1, 2)]
  /\ exists matches ud ut,
       associate_scipy two_dets three_trks thr03 = Ok (matches, ud, ut).
Proof.
  assert (H : linear_assignment None ref_linear_sum_assignment cost_2x3
              = Ok [(0, 0); (1, 2)]) by compute_run.
  split; [exact H|].
  apply (@X13_association_returns float _ None ref_linear_sum_assignment
           two_dets three_trks thr03 [(0, 0); (1, 2)]).
  - exact H.
  - discriminate.
  - repeat constructor; simpl; lia.
Defined.

Lemma X14_witness :
  ref_lapjv cost_2x3 = Ok ([0; 2], [0; -1; 1])
  /\ linear_assignment (Some ref_lapjv) ref_linear_sum_assignment cost_2x3
     = Ok [(0, 0); (1, 2)].
Proof.
  assert (H : ref_lapjv cost_2x3 = Ok ([0; 2], [0; -1; 1])) by compute_run.
  split; [exact H|].
  apply (@X14_lap_pairs_rows_with_columns float ref_lapjv
           ref_linear_sum_assignment cost_2x3 [0; 2] [0; -1; 1] H).
  intros [|[|[|r]]] c Hr Hc; simpl in Hr; try discriminate;
    injection Hr as <-; reflexivity.
Defined.

Lemma X16_witness :
  exists ps,
    predict_and_prune ref_predict (trackers two_tracks)
    = Ok (map fst ps, map (fun p => trk_row (snd p)) ps)
    /\ (forall p, In p ps <->
          exists trk, In trk (trackers two_tracks)
                      /\ p = KalmanBoxTracker_predict ref_predict trk
                      /\ any_isnan (snd p) = false).
Proof.
  apply (@X16_rows_aligned_with_trackers float _ ref_predict
           (trackers two_tracks)).
  intros trk [<-|[<-|[]]]; compute_run.
Defined.

Lemma X17_witness :
  run_scipy 0 s0 five_frames = Ok (3, after_five_frames, rets_five_frames)
  /\ 0 <= 3
  /\ NoDup (map (fun t => id t) (trackers after_five_frames))
  /\ Forall (fun t => 0 <= id t < 3) (trackers after_five_frames).
Proof.
  assert (H : run_scipy 0 s0 five_frames
              = Ok (3, after_five_frames, rets_five_frames))
    by compute_run.
  split; [exact H|].
  exact (@X17_live_ids_distinct float _ ref_predict ref_update None
           ref_linear_sum_assignment 1 3 thr03 0 five_frames 3
           after_five_frames rets_five_frames H).
Defined.

Lemma X18_witness :
  run_scipy 0 s0 five_frames = Ok (3, after_five_frames, rets_five_frames)
  /\ Forall (fun ret => NoDup (map snd ret)
                        /\ Forall (fun r => 0 < snd r <= 3) ret)
            rets_five_frames.
Proof.
  assert (H : run_scipy 0 s0 five_frames
              = Ok (3, after_five_frames, rets_five_frames))
    by compute_run.
  split; [exact H|].
  exact (@X18_returned_ids_distinct float _ ref_predict ref_update None
           ref_linear_sum_assignment 1 3 thr03 0 five_frames 3
           after_five_frames rets_five_frames H).
Defined.

Lemma X19_witness :
  exists self',
    update_scipy 2 two_tracks [] = Ok (2, self', [])
    /\ frame_count self' = frame_count two_tracks + 1
    /\ trackers self'
       = filter (fun t => (time_since_update t <=? max_age two_tracks)%Z)
                (map fst (filter (fun p => negb (any_isnan (snd p)))
                                 (map (KalmanBoxTracker_predict ref_predict)
                                      (trackers two_tracks))))
    /\ Forall (fun t => 1 <= time_since_update t <= max_age two_tracks)
              (trackers self').
Proof.
  apply (@X19_frame_without_detections float _ ref_predict ref_update None
           ref_linear_sum_assignment 2 two_tracks).
  repeat constructor; vm_compute; discriminate.
Defined.

Lemma X20_witness :
  exists self' ret,
    update_scipy 2 two_tracks [d100] = Ok (2, self', ret)
    /\ (length ret <= length [d100])%nat.
Proof.
  destruct (update_scipy 2 two_tracks [d100]) as [[[c self'] ret]|e] eqn:E;
    [|vm_compute in E; discriminate].
  assert (Hc : c = 2).
  { vm_compute in E. injection E as <- _ _. reflexivity. }
  subst c. exists self', ret. split; [reflexivity|].
  apply (@X20_no_more_rows_than_detections float _ ref_predict ref_update None
           ref_linear_sum_assignment 2 two_tracks self' [d100] 2 ret).
  - intros cost mi. apply ref_linear_assignment_rows.
  - repeat constructor; vm_compute; discriminate.
  - exact E.
Defined.

Lemma X21_witness :
  run_scipy 0 s0 five_frames = Ok (3, after_five_frames, rets_five_frames)
  /\ frame_count after_five_frames = Z.of_nat (length five_frames)
  /\ length rets_five_frames = length five_frames
  /\ max_age after_five_frames = 1 /\ min_hits after_five_frames = 3
  /\ iou_threshold after_five_frames = thr03.
Proof.
  assert (H : run_scipy 0 s0 five_frames
              = Ok (3, after_five_frames, rets_five_frames))
    by compute_run.
  split; [exact H|].
  exact (@X21_frame_count_counts_calls float _ ref_predict ref_update None
           ref_linear_sum_assignment 1 3 thr03 0 five_frames 3
           after_five_frames rets_five_frames H).
Defined.

Lemma X22_witness :
  exists self',
    run_scipy 2 two_tracks (repeat [] 2) = Ok (2, self', repeat [] 2)
    /\ trackers self' = [].
Proof.
  apply (@X22_tracks_die_after_max_age_misses float _ ref_predict ref_update
           None ref_linear_sum_assignment 2 two_tracks 2).
  - repeat constructor; vm_compute; discriminate.
  - lia.
  - vm_compute. reflexivity.
Defined.

Lemma X23_witness :
  exists self',
    update ref_predict ref_update None ref_linear_sum_assignment 0
           (Sort_init 1 3 (3 / 10)%R)
           [Row 0 0 10 10 1; Row 20 20 40 50 1]%R
    = Ok (2, self', [((Bbox 20 20 40 50)%R, 2); ((Bbox 0 0 10 10)%R, 1)])
    /\ trackers self'
       = births 0 [Row 0 0 10 10 1; Row 20 20 40 50 1]%R
    /\ frame_count self' = 1.
Proof.
  apply (@X23_first_frame_returns_the_detections ref_predict ref_update None
           ref_linear_sum_assignment 1 3 (3 / 10)%R 0
           [Row 0 0 10 10 1; Row 20 20 40 50 1]%R).
  repeat constructor; simpl; lra.
Defined.

Lemma X24_witness :
  run_scipy 0 s0 five_frames = Ok (3, after_five_frames, rets_five_frames)
  /\ Forall (fun t => Z.of_nat (length (history t)) = time_since_update t
                      /\ time_since_update t <= 1)
            (trackers after_five_frames).
Proof.
  assert (H : run_scipy 0 s0 five_frames
              = Ok (3, after_five_frames, rets_five_frames))
    by compute_run.
  split; [exact H|].
  exact (@X24_history_bounded_by_max_age float _ ref_predict ref_update None
           ref_linear_sum_assignment 1 3 thr03 0 five_frames 3
           after_five_frames rets_five_frames H).
Defined.
